(** * Crash dashboard: the data-loading pipeline of [Dashboard.tsx]

    A shallow embedding of [src/components/Dashboard.tsx] (the effect
    [loadData], the helpers [formatDate] and [formatAxisDate], and the three
    view states of the component) together with the part of the JavaScript
    run time the pipeline leans on: ordinary objects used as dictionaries,
    [Object.values] / [Object.entries], [Array.prototype.sort], the [+] and
    [||] operators on the values that can occur, and [Promise.all]. *)

From Stdlib Require Import ZArith Ascii String List Sorted Permutation Lia.
From stdpp Require Import base numbers strings pretty list gmap sorting.

(** ** JavaScript values *)

(** Primitive values that the pipeline can store or show: numbers that count
    records (a count stays far below 2^53, so a natural number is exact),
    [NaN], and strings. *)
Inductive Prim :=
  | Num (n : nat)
  | NaN
  | Str (s : string).

(** What a property read [obj[key]] can produce on an object literal [{}]:
    [undefined], a primitive, one of the native functions inherited from
    [Object.prototype], or [Object.prototype] itself (through the
    [__proto__] accessor). *)
Inductive JsVal :=
  | VUndefined
  | VPrim (p : Prim)
  | VFunction (fname : string)
  | VObjectPrototype.

Global Instance Prim_eq_dec : EqDecision Prim.
Proof. solve_decision. Defined.
Global Instance JsVal_eq_dec : EqDecision JsVal.
Proof. solve_decision. Defined.

(** [ToBoolean]. *)
Definition truthy (v : JsVal) : bool :=
  match v with
  | VUndefined => false
  | VPrim (Num 0) => false
  | VPrim NaN => false
  | VPrim (Str "") => false
  | _ => true
  end.

(** [a || b]. *)
Definition jsOr (a b : JsVal) : JsVal := if truthy a then a else b.

(** [Function.prototype.toString] of a native function. *)
Definition nativeSource (fname : string) : string :=
  "function " +:+ fname +:+ "() { [native code] }".

(** [ToPrimitive]: objects go through [valueOf] (which returns the object)
    and then [toString]. [None] stands for [undefined]. *)
Definition toPrimitive (v : JsVal) : option Prim :=
  match v with
  | VUndefined => None
  | VPrim p => Some p
  | VFunction f => Some (Str (nativeSource f))
  | VObjectPrototype => Some (Str "[object Object]")
  end.

(** [ToString] of a primitive ([None] is [undefined]). *)
Definition primToString (p : option Prim) : string :=
  match p with
  | None => "undefined"
  | Some (Num n) => pretty n
  | Some NaN => "NaN"
  | Some (Str s) => s
  end.

(** The binary [+]: string concatenation as soon as one side is a string,
    numeric addition otherwise. *)
Definition jsAdd (a b : JsVal) : Prim :=
  match toPrimitive a, toPrimitive b with
  | Some (Str s), q => Str (s +:+ primToString q)
  | p, Some (Str s) => Str (primToString p +:+ s)
  | Some (Num x), Some (Num y) => Num (x + y)
  | _, _ => NaN
  end.

(** ** Ordinary objects used as dictionaries *)

(** The own enumerable properties of an object, in creation order. *)
Definition Props (V : Type) : Type := list (string * V).

Fixpoint ownGet {V} (o : Props V) (k : string) : option V :=
  match o with
  | [] => None
  | (k', v) :: o' => if String.eqb k' k then Some v else ownGet o' k
  end.

(** Writing an own property: an existing property keeps its place, a new
    one is created after all the others. *)
Fixpoint ownSet {V} (o : Props V) (k : string) (v : V) : Props V :=
  match o with
  | [] => [(k, v)]
  | (k', v') :: o' =>
      if String.eqb k' k then (k', v) :: o' else (k', v') :: ownSet o' k v
  end.

(** [s] as a sequence of decimal digits, most significant first. *)
Fixpoint parseDigits (s : string) (acc : N) : option N :=
  match s with
  | EmptyString => Some acc
  | String c s' =>
      let n := N_of_ascii c in
      if ((48 <=? n) && (n <=? 57))%N
      then parseDigits s' (10 * acc + (n - 48))%N
      else None
  end.

(** An array index is a canonical numeric string below 2^32 - 1. *)
Definition arrayIndex (k : string) : option N :=
  match k with
  | EmptyString => None
  | _ =>
      match parseDigits k 0 with
      | Some n =>
          if (String.eqb (pretty n) k && (n <? 4294967295)%N)%bool
          then Some n else None
      | None => None
      end
  end.

Definition isArrayIndex (k : string) : bool :=
  match arrayIndex k with Some _ => true | None => false end.

(** Stable insertion into a list ordered by [le]. *)
Fixpoint insertSorted {A} (le : A → A → bool) (x : A) (l : list A) : list A :=
  match l with
  | [] => [x]
  | y :: l' => if le x y then x :: l else y :: insertSorted le x l'
  end.

Definition sortBy {A} (le : A → A → bool) (l : list A) : list A :=
  foldr (insertSorted le) [] l.

Definition indexLe {V} (a b : string * V) : bool :=
  match arrayIndex a.1, arrayIndex b.1 with
  | Some i, Some j => (i <=? j)%N
  | _, _ => true
  end.

(** [OrdinaryOwnPropertyKeys]: array indices in ascending numeric order,
    then the other string keys in creation order. This is the order of
    [Object.values] and [Object.entries]. *)
Definition ownEntries {V} (o : Props V) : list (string * V) :=
  sortBy indexLe (filter (λ kv, isArrayIndex kv.1 = true) o)
  ++ filter (λ kv, isArrayIndex kv.1 = false) o.

Definition objectValues {V} (o : Props V) : list V := (ownEntries o).*2.

(** The function-valued properties every object literal inherits from
    [Object.prototype], each with the name of the function it holds. *)
Definition objectPrototypeFunctions : list (string * string) :=
  [ ("constructor", "Object");
    ("hasOwnProperty", "hasOwnProperty");
    ("isPrototypeOf", "isPrototypeOf");
    ("propertyIsEnumerable", "propertyIsEnumerable");
    ("toLocaleString", "toLocaleString");
    ("toString", "toString");
    ("valueOf", "valueOf");
    ("__defineGetter__", "__defineGetter__");
    ("__defineSetter__", "__defineSetter__");
    ("__lookupGetter__", "__lookupGetter__");
    ("__lookupSetter__", "__lookupSetter__") ].

(** A property read that misses the own properties and continues in
    [Object.prototype]. *)
Definition objectPrototypeGet (k : string) : JsVal :=
  if String.eqb k "__proto__" then VObjectPrototype
  else match ownGet objectPrototypeFunctions k with
       | Some f => VFunction f
       | None => VUndefined
       end.

(** [acc[k]] on an object created by [{}] whose own properties hold
    primitives. *)
Definition getProp (o : Props Prim) (k : string) : JsVal :=
  match ownGet o k with
  | Some p => VPrim p
  | None => objectPrototypeGet k
  end.

(** [acc[k] = p] for a primitive [p]. The key [__proto__] reaches the
    accessor of [Object.prototype], whose setter ignores a value that is
    neither an object nor [null]; the data properties of [Object.prototype]
    are writable, so every other key creates or updates an own property. *)
Definition setProp (o : Props Prim) (k : string) (p : Prim) : Props Prim :=
  if String.eqb k "__proto__" then o else ownSet o k p.

(** [Array.prototype.sort(compareFn)]: the sort is stable, and an element
    moves in front of another one only when the comparator does not put it
    after it. *)
Definition arraySort {A} (compareFn : A → A → comparison) (l : list A) : list A :=
  sortBy (λ a b, match compareFn a b with Gt => false | _ => true end) l.

(** [String.prototype.padStart] with a one-character filler. *)
Definition padStart (s : string) (targetLength : nat) (fill : ascii) : string :=
  string_of_list_ascii (replicate (targetLength - String.length s) fill) +:+ s.

(** ** Promises and [try] / [catch] *)

(** A settled promise: fulfilled with a value, or rejected with an [Error]
    of which only the [message] is ever read. A [throw] inside the [try]
    block is a rejection too. *)
Inductive Settled (A : Type) : Type :=
  | Fulfilled (a : A)
  | Rejected (message : string).
Global Arguments Fulfilled {A} a.
Global Arguments Rejected {A} message.

(** [await]: go on with the value, or leave the [try] block. *)
Global Instance Settled_ret : MRet Settled := λ A a, Fulfilled a.
Global Instance Settled_bind : MBind Settled := λ A B k p,
  match p with
  | Fulfilled a => k a
  | Rejected m => Rejected m
  end.

(** [Promise.all] of two promises. It rejects with the reason of the
    promise that rejects first in time; [secondFirst] tells which one that
    is when both reject. *)
Definition promiseAll {A B} (p1 : Settled A) (p2 : Settled B)
    (secondFirst : bool) : Settled (A * B) :=
  match p1, p2 with
  | Fulfilled a, Fulfilled b => Fulfilled (a, b)
  | Rejected m, Fulfilled _ => Rejected m
  | Fulfilled _, Rejected m => Rejected m
  | Rejected m1, Rejected m2 => Rejected (if secondFirst then m2 else m1)
  end.

(** A [fetch] response: the [ok] flag and the promise of its body text. *)
Record Response := { ok : bool; text : Settled string }.

(** What the network does during one run of [loadData]. *)
Record Network := {
  adasFetch : Settled Response;
  adsFetch : Settled Response;
  adsSettlesFirst : bool
}.

(** ** The host: dates, collation and the CSV parser *)

(** A parsed CSV row ([header: true]): field name to field text. A field
    that the row lacks reads as [undefined]. *)
Abbreviation Row := (gmap string string).

(** The characters of a month key: decimal digits and the hyphen. *)
Definition keyChar (c : ascii) : bool :=
  let n := N_of_ascii c in
  ((n =? 45) || ((48 <=? n) && (n <=? 57)))%N.

Fixpoint keyText (s : string) : bool :=
  match s with
  | EmptyString => true
  | String c s' => keyChar c && keyText s'
  end.

(** What the browser and the libraries supply. A [Date] is its time value,
    a number of milliseconds; [Date_parse] returns [None] for [NaN]
    (an invalid date). [getFullYear] and [getMonth] read the local calendar
    of a time value. [localeCompare] is the collation of the default locale:
    on texts made of digits and hyphens it agrees with the order of the code
    units, as the root collation does. [Papa_parse] is
    [Papa.parse(text, {header: true, skipEmptyLines: true}).data]. *)
Class Host := {
  Date_parse : string → option Z;
  getFullYear : Z → Z;
  getMonth : Z → nat;
  localeCompare : string → string → comparison;
  Papa_parse : string → list Row;
  getMonth_range : ∀ t, getMonth t < 12;
  Date_parse_empty : Date_parse "" = None;
  localeCompare_keyText : ∀ a b,
    keyText a = true → keyText b = true → localeCompare a b = String.compare a b
}.

(** ** [Dashboard.tsx] *)

Definition MONTHS : list string :=
  [ "Jan"; "Feb"; "Mar"; "Apr"; "May"; "Jun";
    "Jul"; "Aug"; "Sep"; "Oct"; "Nov"; "Dec" ].

Record MonthBucket := {
  date : string;
  axisDate : string;
  count : nat;
  sortKey : string
}.

Record CategoryCount := { name : string; value : Prim }.

Global Instance MonthBucket_eq_dec : EqDecision MonthBucket.
Proof. solve_decision. Defined.
Global Instance CategoryCount_eq_dec : EqDecision CategoryCount.
Proof. solve_decision. Defined.

(** The calls of the two formatting helpers, in the order they happen. *)
Inductive Call :=
  | CallFormatDate (t : Z)
  | CallFormatAxisDate (t : Z).

(** A computation together with the helper calls it made. *)
Definition Traced (A : Type) : Type := A * list Call.

Global Instance Traced_ret : MRet Traced := λ A a, (a, []).
Global Instance Traced_bind : MBind Traced := λ A B k m,
  let r := k m.1 in (r.1, m.2 ++ r.2).

Section Dashboard.
Context `{Host}.

(** [new Date(v)] for a field read from a row: [undefined] gives an
    invalid date, a string is parsed. *)
Definition newDate (v : option string) : option Z := v ≫= Date_parse.

(** [formatDate]. The caller passes a [Date]; [new Date(date)] copies its
    time value. *)
Definition formatDate (t : Z) : string :=
  default "undefined" (MONTHS !! getMonth t) +:+ " " +:+ pretty (getFullYear t).

(** [formatAxisDate]. *)
Definition formatAxisDate (t : Z) : string :=
  padStart (pretty (getMonth t + 1)) 2 "0" +:+ "-" +:+ pretty (getFullYear t).

Definition formatDateT (t : Z) : Traced string :=
  (formatDate t, [CallFormatDate t]).
Definition formatAxisDateT (t : Z) : Traced string :=
  (formatAxisDate t, [CallFormatAxisDate t]).

(** The key template of [loadData]. *)
Definition monthKey (t : Z) : string :=
  pretty (getFullYear t) +:+ "-" +:+ padStart (pretty (getMonth t + 1)) 2 "0".

(** [monthlyAccidents[key]?.count || 0]. A key that is no own property
    reads as [undefined], or as a native function, which has no [count]. *)
Definition previousCount (monthlyAccidents : Props MonthBucket) (key : string) : nat :=
  match ownGet monthlyAccidents key with
  | Some b => count b
  | None => 0
  end.

(** The callback of [[...adasData, ...adsData].forEach]. A month key
    always has a hyphen in it, so the assignment creates or replaces an
    own property. *)
Definition monthlyCallback (monthlyAccidents : Props MonthBucket) (row : Row)
    : Traced (Props MonthBucket) :=
  match newDate (row !! "Incident Date") with
  | Some t =>
      let key := monthKey t in
      d ← formatDateT t;
      a ← formatAxisDateT t;
      mret (ownSet monthlyAccidents key
              {| date := d; axisDate := a;
                 count := previousCount monthlyAccidents key + 1;
                 sortKey := key |})
  | None => mret monthlyAccidents
  end.

Fixpoint forEachT (rows : list Row) (monthlyAccidents : Props MonthBucket)
    : Traced (Props MonthBucket) :=
  match rows with
  | [] => mret monthlyAccidents
  | row :: rows' =>
      o ← monthlyCallback monthlyAccidents row;
      forEachT rows' o
  end.

(** [monthlyAccidents] once the loop is over. *)
Definition monthlyAccidentsOf (adasData adsData : list Row) : Props MonthBucket :=
  (forEachT (adasData ++ adsData) []).1.

(** [monthlyDataArray]. *)
Definition monthlyDataArray (adasData adsData : list Row) : list MonthBucket :=
  arraySort (λ a b, localeCompare (sortKey a) (sortKey b))
    (objectValues (monthlyAccidentsOf adasData adsData)).

(** [severity && severity !== 'Unknown']. *)
Definition severityCounts (severity : option string) : bool :=
  match severity with
  | Some s => negb (String.eqb s "") && negb (String.eqb s "Unknown")
  | None => false
  end.

(** The reducer of [adasData.reduce] and [adsData.reduce]. *)
Definition severityReducer (acc : Props Prim) (row : Row) : Props Prim :=
  let severity := row !! "Highest Injury Severity Alleged" in
  if severityCounts severity then
    let s := default "" severity in
    setProp acc s (jsAdd (jsOr (getProp acc s) (VPrim (Num 0))) (VPrim (Num 1)))
  else acc.

(** [adasInjuriesData] and [adsInjuriesData]. *)
Definition injuriesData (data : list Row) : list CategoryCount :=
  (λ kv, {| name := kv.1; value := kv.2 |}) <$> ownEntries (foldl severityReducer [] data).

(** [items.reduce((sum, item) => sum + item.value, 0)]. *)
Definition totalOf (items : list CategoryCount) : Prim :=
  foldl (λ sum item, jsAdd (VPrim sum) (VPrim (value item))) (Num 0) items.

(** The state of the component. *)
Record State := {
  monthlyData : list MonthBucket;
  adasInjuries : list CategoryCount;
  adsInjuries : list CategoryCount;
  totalADAS : Prim;
  totalADS : Prim;
  isLoading : bool;
  error : option string
}.

Definition initialState : State :=
  {| monthlyData := []; adasInjuries := []; adsInjuries := [];
     totalADAS := Num 0; totalADS := Num 0; isLoading := true; error := None |}.

Definition setMonthlyData v (st : State) := {|
  monthlyData := v; adasInjuries := adasInjuries st; adsInjuries := adsInjuries st;
  totalADAS := totalADAS st; totalADS := totalADS st;
  isLoading := isLoading st; error := error st |}.
Definition setAdasInjuries v (st : State) := {|
  monthlyData := monthlyData st; adasInjuries := v; adsInjuries := adsInjuries st;
  totalADAS := totalADAS st; totalADS := totalADS st;
  isLoading := isLoading st; error := error st |}.
Definition setAdsInjuries v (st : State) := {|
  monthlyData := monthlyData st; adasInjuries := adasInjuries st; adsInjuries := v;
  totalADAS := totalADAS st; totalADS := totalADS st;
  isLoading := isLoading st; error := error st |}.
Definition setTotalADAS v (st : State) := {|
  monthlyData := monthlyData st; adasInjuries := adasInjuries st;
  adsInjuries := adsInjuries st; totalADAS := v; totalADS := totalADS st;
  isLoading := isLoading st; error := error st |}.
Definition setTotalADS v (st : State) := {|
  monthlyData := monthlyData st; adasInjuries := adasInjuries st;
  adsInjuries := adsInjuries st; totalADAS := totalADAS st; totalADS := v;
  isLoading := isLoading st; error := error st |}.
Definition setIsLoading v (st : State) := {|
  monthlyData := monthlyData st; adasInjuries := adasInjuries st;
  adsInjuries := adsInjuries st; totalADAS := totalADAS st; totalADS := totalADS st;
  isLoading := v; error := error st |}.
Definition setError v (st : State) := {|
  monthlyData := monthlyData st; adasInjuries := adasInjuries st;
  adsInjuries := adsInjuries st; totalADAS := totalADAS st; totalADS := totalADS st;
  isLoading := isLoading st; error := v |}.

(** The [try] block of [loadData], from the state left by
    [setIsLoading(true); setError(null)]. *)
Definition loadDataTry (net : Network) (st : State) : Settled State :=
  responses ← promiseAll (adasFetch net) (adsFetch net) (adsSettlesFirst net);
  let adasResponse := responses.1 in
  let adsResponse := responses.2 in
  _ ← (if negb (ok adasResponse) || negb (ok adsResponse)
       then Rejected "Failed to fetch CSV files" else Fulfilled ());
  adasText ← text adasResponse;
  adsText ← text adsResponse;
  let adasData := Papa_parse adasText in
  let adsData := Papa_parse adsText in
  let monthlyDataArray := monthlyDataArray adasData adsData in
  let adasInjuriesData := injuriesData adasData in
  let adsInjuriesData := injuriesData adsData in
  mret (setIsLoading false
         (setTotalADS (totalOf adsInjuriesData)
           (setTotalADAS (totalOf adasInjuriesData)
             (setAdsInjuries adsInjuriesData
               (setAdasInjuries adasInjuriesData
                 (setMonthlyData monthlyDataArray st)))))).

(** [loadData]: the [try] block, and the [catch] block on a rejection. *)
Definition loadData (net : Network) (st : State) : State :=
  let st0 := setError None (setIsLoading true st) in
  match loadDataTry net st0 with
  | Fulfilled st' => st'
  | Rejected message => setIsLoading false (setError (Some message) st0)
  end.

(** What the component renders: one of three views. *)
Inductive View :=
  | LoadingView
  | ErrorView (message : string)
  | DashboardView (monthly : list MonthBucket)
      (adas ads : list CategoryCount) (totalA totalB : Prim).

(** The two early returns of [Dashboard] ([if (isLoading)], [if (error)])
    and the dashboard itself. *)
Definition render (st : State) : View :=
  if isLoading st then LoadingView
  else match error st with
       | Some (String c m) => ErrorView (String c m)
       | _ => DashboardView (monthlyData st) (adasInjuries st) (adsInjuries st)
                (totalADAS st) (totalADS st)
       end.
End Dashboard.

(** ** The chart helpers of the component *)

Definition COLORS : list string :=
  [ "#0088FE"; "#00C49F"; "#FFBB28"; "#FF8042"; "#8884d8"; "#82ca9d" ].

(** [COLORS[index % COLORS.length]], the fill of the pie cell at [index];
    [None] is [undefined]. *)
Definition cellFill (index : nat) : option string :=
  COLORS !! (index mod length COLORS).

(** [Array.prototype.find]: the first element that satisfies the test. *)
Fixpoint arrayFind {A} (test : A → bool) (l : list A) : option A :=
  match l with
  | [] => None
  | x :: l' => if test x then Some x else arrayFind test l'
  end.

(** The fills of the cells of a pie chart,
    [items.map((entry, index) => COLORS[index % COLORS.length])]. *)
Definition pieCells (items : list CategoryCount) : list (option string) :=
  imap (λ index _, cellFill index) items.

(** What a call of [CustomTooltip] comes to: [null], the box with the
    label of the month and the number of crashes, or the [TypeError] of
    reading [date] of [undefined]. *)
Inductive TooltipResult :=
  | TooltipNull
  | TooltipBox (title : string) (crashes : nat)
  | TooltipTypeError.

(** [CustomTooltip], which closes over the state [monthlyData]. [payload]
    is [None] when the property is missing; its items are given by their
    [value]. *)
Definition CustomTooltip (monthlyData : list MonthBucket)
    (active : bool) (payload : option (list nat)) (label : string) : TooltipResult :=
  match active, payload with
  | true, Some (value0 :: _) =>
      match arrayFind (λ item, String.eqb (axisDate item) label) monthlyData with
      | Some dataPoint => TooltipBox (date dataPoint) value0
      | None => TooltipTypeError
      end
  | _, _ => TooltipNull
  end.

(** ** A sample host

    A host to run the pipeline on concrete feeds: the time zone is UTC, the
    calendar is the proleptic Gregorian one, [Date.parse] reads the date-only
    form [YYYY-MM-DD], the collation is the order of the code units, and the
    CSV reader splits unquoted text on line feeds and commas. *)

Module SampleHost.

Definition msPerDay : Z := 86400000.

(** Days from 1970-01-01 to the civil date [y]-[m]-[d] ([m] from 1). *)
Definition daysFromCivil (y m d : Z) : Z :=
  let y' := if (m <=? 2)%Z then (y - 1)%Z else y in
  let era := (y' / 400)%Z in
  let yoe := (y' - era * 400)%Z in
  let mp := ((m + 9) mod 12)%Z in
  let doy := ((153 * mp + 2) / 5 + d - 1)%Z in
  let doe := (yoe * 365 + yoe / 4 - yoe / 100 + doy)%Z in
  (era * 146097 + doe - 719468)%Z.

(** The civil year and the month (from 0) of a day number. *)
Definition civilFromDays (z : Z) : Z * nat :=
  let z' := (z + 719468)%Z in
  let era := (z' / 146097)%Z in
  let doe := (z' - era * 146097)%Z in
  let yoe := ((doe - doe / 1460 + doe / 36524 - doe / 146096) / 365)%Z in
  let doy := (doe - (365 * yoe + yoe / 4 - yoe / 100))%Z in
  let mp := ((5 * doy + 2) / 153)%Z in
  let month := Z.to_nat ((mp + 2) mod 12) in
  ((yoe + era * 400 + (if Nat.ltb month 2 then 1 else 0))%Z, month).

Definition isLeap (y : Z) : bool :=
  ((y mod 4 =? 0) && (negb (y mod 100 =? 0) || (y mod 400 =? 0)))%Z.

Definition daysInMonth (y m : Z) : Z :=
  if (m =? 2)%Z then (if isLeap y then 29 else 28)%Z
  else if ((m =? 4) || (m =? 6) || (m =? 9) || (m =? 11))%Z then 30%Z
  else 31%Z.

Definition parseIsoDate (s : string) : option Z :=
  if negb (Nat.eqb (String.length s) 10) then None
  else if negb (String.eqb (substring 4 1 s) "-" && String.eqb (substring 7 1 s) "-") then None
  else
    y ← parseDigits (substring 0 4 s) 0;
    m ← parseDigits (substring 5 2 s) 0;
    d ← parseDigits (substring 8 2 s) 0;
    let y := Z.of_N y in
    let m := Z.of_N m in
    let d := Z.of_N d in
    if ((1 <=? m) && (m <=? 12) && (1 <=? d) && (d <=? daysInMonth y m))%Z
    then Some (daysFromCivil y m d * msPerDay)%Z
    else None.

Definition utcFullYear (t : Z) : Z := (civilFromDays (t / msPerDay)).1.
Definition utcMonth (t : Z) : nat := (civilFromDays (t / msPerDay)).2.

(** The pieces of [s] between the occurrences of [sep]. *)
Fixpoint splitOn (sep : ascii) (s : string) : list string :=
  match s with
  | EmptyString => [EmptyString]
  | String c s' =>
      if Ascii.eqb c sep then EmptyString :: splitOn sep s'
      else match splitOn sep s' with
           | piece :: pieces => String c piece :: pieces
           | [] => [String c EmptyString]
           end
  end.

Definition lineFeed : ascii := ascii_of_nat 10.

Definition simpleCsv (text : string) : list Row :=
  match filter (λ line, line ≠ EmptyString) (splitOn lineFeed text) with
  | [] => []
  | header :: lines =>
      (λ line, list_to_map (zip (splitOn "," header) (splitOn "," line))) <$> lines
  end.

Definition utcHost : Host.
Proof.
  refine {| Date_parse := parseIsoDate;
            getFullYear := utcFullYear;
            getMonth := utcMonth;
            localeCompare := String.compare;
            Papa_parse := simpleCsv;
            getMonth_range := _;
            Date_parse_empty := eq_refl;
            localeCompare_keyText := λ a b _ _, eq_refl |}.
  abstract (intros t; unfold utcMonth, civilFromDays; simpl;
            match goal with |- Z.to_nat (?x mod 12) < 12 =>
              pose proof (Z.mod_pos_bound x 12 ltac:(lia)) end; lia).
Defined.

End SampleHost.

(** A row with the two fields the pipeline reads. *)
Definition incident (incidentDate severity : string) : Row :=
  {[ "Incident Date" := incidentDate;
     "Highest Injury Severity Alleged" := severity ]}.

(** ** Concrete feeds and networks *)

Module Samples.
Import SampleHost.

(** A feed with two incidents in January 2023 and one in February. *)
Definition adasText : string := "Incident Date,Highest Injury Severity Alleged
2023-01-15,Minor
2023-01-20,Minor
2023-02-01,Unknown
".

(** A feed with one incident in January 2023 and a row without a date. *)
Definition adsText : string := "Incident Date,Highest Injury Severity Alleged
2023-01-07,Serious
,Minor
".

(** A feed with a header and no record. *)
Definition emptyText : string := "Incident Date,Highest Injury Severity Alleged
".

(** A feed whose only record passes neither filter. *)
Definition unusableText : string := "Incident Date,Highest Injury Severity Alleged
soon,Unknown
".

Definition okResponse (body : string) : Settled Response :=
  Fulfilled {| ok := true; text := Fulfilled body |}.

(** A response with status 404. *)
Definition notFound : Settled Response :=
  Fulfilled {| ok := false; text := Fulfilled "Not Found" |}.

Definition bothFetched : Network :=
  {| adasFetch := okResponse adasText; adsFetch := okResponse adsText;
     adsSettlesFirst := false |}.

Definition bothFetchedAdsFirst : Network :=
  {| adasFetch := okResponse adasText; adsFetch := okResponse adsText;
     adsSettlesFirst := true |}.

Definition nothingToShow : Network :=
  {| adasFetch := okResponse emptyText; adsFetch := okResponse unusableText;
     adsSettlesFirst := false |}.

Definition adasNotFound : Network :=
  {| adasFetch := notFound; adsFetch := okResponse adsText;
     adsSettlesFirst := true |}.

Definition mayAdas : list Row :=
  [incident "2021-05-03" "Minor"; incident "2021-06-01" "Minor"].
Definition mayAds : list Row :=
  [incident "2021-05-20" "Serious"; incident "soon" "Unknown"].

Definition may2021 : MonthBucket :=
  {| date := "May 2021"; axisDate := "05-2021"; count := 2; sortKey := "2021-05" |}.
Definition june2021 : MonthBucket :=
  {| date := "Jun 2021"; axisDate := "06-2021"; count := 1; sortKey := "2021-06" |}.
(** A feed with two severities that are counted, one of them twice. *)
Definition severityFeed : list Row :=
  [ incident "2021-05-03" "Minor"; incident "" "Serious";
    incident "soon" "Minor"; incident "2021-06-01" "Unknown" ].

(** The same severities, with other dates. *)
Definition severityFeedRedated : list Row :=
  [ incident "2022-01-01" "Minor"; incident "2022-01-02" "Serious";
    incident "" "Minor"; incident "" "Unknown" ].

(** The dates of [mayAdas], with other severities. *)
Definition mayAdasRelabelled : list Row :=
  [incident "2021-05-03" "Fatality"; incident "2021-06-01" ""].

(** Both fetches are answered, and the body of the second cannot be read. *)
Definition unreadableBody : Network :=
  {| adasFetch := okResponse adasText;
     adsFetch := Fulfilled {| ok := true; text := Rejected "body stream already read" |};
     adsSettlesFirst := false |}.
End Samples.

(** ** The vocabulary of the properties *)

Section Vocabulary.
Context `{Host}.
Implicit Types (rows data adasData adsData : list Row) (row : Row).
Implicit Types (o : Props MonthBucket) (ts : list Z) (t : Z) (k s : string).

(** [a] does not come after [b]. *)
Definition strLe (a b : string) : bool :=
  match String.compare a b with Gt => false | _ => true end.

(** The month part of a key and of an axis label. *)
Definition monthText (m : nat) : string := padStart (pretty (m + 1)) 2 "0".

(** The key of the month [m] (from 0) of the year [y]. *)
Definition keyOfMonth (y : Z) (m : nat) : string :=
  pretty y +:+ "-" +:+ monthText m.

(** The names that an object literal inherits. *)
Definition inheritedNames : list string :=
  "__proto__" :: objectPrototypeFunctions.*1.

(** The time value of a row's incident date, when the date is valid. *)
Definition incidentTime (row : Row) : option Z :=
  newDate (row !! "Incident Date").

(** The row has an incident date that parses. *)
Definition validDate (row : Row) : Prop := is_Some (incidentTime row).

Global Instance validDate_dec row : Decision (validDate row).
Proof. unfold validDate. apply _. Defined.

(** The local year and month (from 0) of a validly dated row. *)
Definition incidentMonth (row : Row) : option (Z * nat) :=
  (λ t, (getFullYear t, getMonth t)) <$> incidentTime row.

(** The time values of all the validly dated rows of both feeds, in the
    order in which the loop meets them. *)
Definition validTimes (adasData adsData : list Row) : list Z :=
  omap incidentTime (adasData ++ adsData).

(** The rows of a feed that are validly dated in month [ym.2] (from 0)
    of year [ym.1]. *)
Definition rowsInMonth (ym : Z * nat) rows : list Row :=
  filter (λ row, incidentMonth row = Some ym) rows.

(** The bucket that the loop writes for a record with time value [t]. *)
Definition bucketFor (o : Props MonthBucket) (t : Z) : MonthBucket :=
  {| date := formatDate t; axisDate := formatAxisDate t;
     count := previousCount o (monthKey t) + 1; sortKey := monthKey t |}.

Definition addTime (o : Props MonthBucket) (t : Z) : Props MonthBucket :=
  ownSet o (monthKey t) (bucketFor o t).

(** The helper calls made for one validly dated record. *)
Definition callsFor (t : Z) : list Call := [CallFormatDate t; CallFormatAxisDate t].

(** The time values on which [formatDate] was called. *)
Definition formatDateCalls (calls : list Call) : list Z :=
  omap (λ c, match c with CallFormatDate t => Some t | _ => None end) calls.

(** The times in [ts] that are the first of their month, [seen] being the
    keys of the months met before. *)
Fixpoint firstOfMonth (seen : list string) ts : list Z :=
  match ts with
  | [] => []
  | t :: ts' =>
      if decide (monthKey t ∈ seen) then firstOfMonth seen ts'
      else t :: firstOfMonth (monthKey t :: seen) ts'
  end.

(** The labels are computed once for each bucket, from the first record of
    its month, and not again: [formatDate] is called on the first record of
    each month and on no other. *)
Definition labelsComputedOnce rows : Prop :=
  formatDateCalls (forEachT rows []).2 = firstOfMonth [] (omap incidentTime rows).

(** How many of the times [ts] fall in the month with key [k]. *)
Definition countKey (k : string) (ts : list Z) : nat :=
  length (filter (λ t, monthKey t = k) ts).

(** What the loop has built after the valid times [ts]. *)
Record monthlyInv (o : Props MonthBucket) (ts : list Z) : Prop := {
  inv_NoDup : NoDup o.*1;
  inv_absent k : ownGet o k = None → countKey k ts = 0;
  inv_present k b : ownGet o k = Some b →
    sortKey b = k ∧ count b = countKey k ts ∧
    (∃ t, t ∈ ts ∧ monthKey t = k) ∧
    (∀ t, t ∈ ts → monthKey t = k →
       date b = formatDate t ∧ axisDate b = formatAxisDate t);
  inv_sum : sum_list (count <$> o.*2) = length ts
}.

(** The severity field of a row; [None] when the row lacks the field. *)
Definition severityOf row : option string :=
  row !! "Highest Injury Severity Alleged".

(** The severity is present, non-empty and not ["Unknown"]. *)
Definition namedSeverity row : Prop :=
  ∃ s, severityOf row = Some s ∧ s ≠ "" ∧ s ≠ "Unknown".

(** The severity is missing, empty or ["Unknown"]. *)
Definition excludedSeverity row : Prop :=
  severityOf row = None ∨ severityOf row = Some "" ∨ severityOf row = Some "Unknown".

Global Instance namedSeverity_dec row : Decision (namedSeverity row).
Proof.
  unfold namedSeverity. destruct (severityOf row) as [s|].
  - destruct (decide (s ≠ "" ∧ s ≠ "Unknown")) as [Hs|Hs].
    + left. by exists s.
    + right. by intros (? & [= <-] & ?).
  - right. by intros (? & ? & _).
Defined.

(** The severity of the row, if any, is not a name that object literals
    inherit from [Object.prototype]. *)
Definition plainSeverity row : Prop :=
  ∀ s, severityOf row = Some s → s ∉ inheritedNames.

(** The number held by a primitive. *)
Definition numberOf (p : Prim) : nat :=
  match p with Num n => n | _ => 0 end.

Definition positiveNumber (p : Prim) : Prop := ∃ m, p = Num m ∧ 1 ≤ m.

(** The two body texts, when both fetches settle with an [ok] response
    whose body can be read. *)
Definition fetchedTexts (net : Network) : option (string * string) :=
  match adasFetch net, adsFetch net with
  | Fulfilled adasResponse, Fulfilled adsResponse =>
      if ok adasResponse && ok adsResponse then
        match text adasResponse, text adsResponse with
        | Fulfilled adasText, Fulfilled adsText => Some (adasText, adsText)
        | _, _ => None
        end
      else None
  | _, _ => None
  end.

(** A fetch that rejects, or that answers with a status outside 2xx. *)
Definition fetchFailed (p : Settled Response) : Prop :=
  match p with
  | Rejected _ => True
  | Fulfilled response => ok response = false
  end.

(** A row that passes neither filter: its date does not parse and its
    severity is missing, empty or ["Unknown"]. *)
Definition passesNoFilter (row : Row) : Prop :=
  incidentTime row = None ∧ excludedSeverity row.

(** The bucket of the month of [t] when the valid times are [ts]: the
    labels and the key of [t], and the number of times in that month. *)
Definition bucketOf ts t : MonthBucket :=
  {| date := formatDate t; axisDate := formatAxisDate t;
     count := countKey (monthKey t) ts; sortKey := monthKey t |}.

(** The rows whose incident date parses and falls in the month with key [k]. *)
Definition rowsWithKey k rows : list Row :=
  filter (λ row, monthKey <$> incidentTime row = Some k) rows.

(** The month numbers as the keys and the axis labels show them. *)
Definition twoDigitMonths : list string :=
  [ "01"; "02"; "03"; "04"; "05"; "06"; "07"; "08"; "09"; "10"; "11"; "12" ].

(** The local year of [t] has four digits. *)
Definition fourDigitYear t : Prop := (1000 ≤ getFullYear t ≤ 9999)%Z.

(** The month of [t1] is before the month of [t2] in the calendar. *)
Definition monthBefore (t1 t2 : Z) : Prop :=
  (getFullYear t1 < getFullYear t2)%Z
  ∨ (getFullYear t1 = getFullYear t2 ∧ getMonth t1 < getMonth t2).

(** The rows of a feed with severity [s]. *)
Definition rowsWithSeverity s data : list Row :=
  filter (λ row, severityOf row = Some s) data.

(** The severities that the reducer counts, in the order of the rows. *)
Definition countedSeverities data : list string :=
  omap (λ row, if decide (namedSeverity row) then severityOf row else None) data.

(** The elements of [l] in the order of their first occurrence. *)
Definition firstSeen (l : list string) : list string :=
  reverse (remove_dups (reverse l)).

(** A name that becomes an own property in creation order: not the
    prototype accessor, and not an array index. *)
Definition orderedName s : Prop := s ≠ "__proto__" ∧ isArrayIndex s = false.

(** The first read of a body text that fails, in the order of the two
    [await]s, with its message. *)
Definition bodyReadFailure (net : Network) : option string :=
  match adasFetch net, adsFetch net with
  | Fulfilled adasResponse, Fulfilled adsResponse =>
      if ok adasResponse && ok adsResponse then
        match text adasResponse, text adsResponse with
        | Rejected message, _ => Some message
        | Fulfilled _, Rejected message => Some message
        | Fulfilled _, Fulfilled _ => None
        end
      else None
  | _, _ => None
  end.

(** The decimal texts of two successive years of four digits: four
    characters, and in the order of the years. *)
Definition yearStepOk (y : Z) : bool :=
  Nat.eqb (String.length (pretty y)) 4
  && match String.compare (pretty y) (pretty (y + 1)%Z) with Lt => true | _ => false end.

End Vocabulary.

(** * Properties *)

(** ** Sorting *)

Section sortBy_facts.
Context {A : Type}.
Implicit Types (le : A → A → bool) (l : list A).

Lemma insertSorted_Permutation le x l : insertSorted le x l ≡ₚ x :: l.
Proof.
  induction l as [|y l IH]; simpl; [done|].
  destruct (le x y); [done|]. rewrite IH. apply Permutation_swap.
Qed.

Lemma sortBy_Permutation le l : sortBy le l ≡ₚ l.
Proof.
  induction l as [|x l IH]; simpl; [done|].
  rewrite insertSorted_Permutation. by f_equiv.
Qed.

Lemma insertSorted_ext le le' x l :
  (∀ y, y ∈ l → le x y = le' x y) →
  insertSorted le x l = insertSorted le' x l.
Proof.
  induction l as [|y l IH]; intros Hext; simpl; [done|].
  rewrite <-(Hext y) by left.
  destruct (le x y); [done|]. f_equal. apply IH. intros z Hz. apply Hext. by right.
Qed.

(** Two orders that agree on the elements of a list sort it alike. *)
Lemma sortBy_ext le le' l :
  (∀ x y, x ∈ l → y ∈ l → le x y = le' x y) →
  sortBy le l = sortBy le' l.
Proof.
  induction l as [|x l IH]; intros Hext; simpl; [done|].
  rewrite IH by (intros y z Hy Hz; apply Hext; by right).
  apply insertSorted_ext. intros y Hy. apply Hext; [left|right].
  by rewrite <-(sortBy_Permutation le' l).
Qed.

Section total_order.
Context (le : A → A → bool).
Hypothesis le_total : ∀ x y, le x y = true ∨ le y x = true.
Hypothesis le_trans : ∀ x y z, le x y = true → le y z = true → le x z = true.

Lemma insertSorted_StronglySorted x l :
  StronglySorted (λ a b, le a b = true) l →
  StronglySorted (λ a b, le a b = true) (insertSorted le x l).
Proof.
  induction 1 as [|y l Hsorted IH Hall]; simpl.
  - repeat constructor.
  - destruct (le x y) eqn:Hxy.
    + constructor; [by constructor|].
      constructor; [done|]. eapply Forall_impl; [exact Hall|].
      intros z Hz. by eapply le_trans.
    + constructor; [done|].
      rewrite insertSorted_Permutation. constructor; [|done].
      destruct (le_total x y); congruence.
Qed.

Lemma sortBy_StronglySorted l :
  StronglySorted (λ a b, le a b = true) (sortBy le l).
Proof.
  induction l; simpl; [constructor|]. by apply insertSorted_StronglySorted.
Qed.
End total_order.
End sortBy_facts.

(** ** The order of the code units *)

Lemma ascii_compare_N c1 c2 :
  Ascii.compare c1 c2 = (N_of_ascii c1 ?= N_of_ascii c2)%N.
Proof. reflexivity. Qed.

Lemma string_compare_refl s : String.compare s s = Eq.
Proof.
  induction s as [|c s IH]; simpl; [done|].
  rewrite ascii_compare_N, N.compare_refl. done.
Qed.

Lemma string_compare_Lt_trans a b c :
  String.compare a b = Lt → String.compare b c = Lt → String.compare a c = Lt.
Proof.
  revert b c. induction a as [|x a IH]; intros [|y b] [|z c]; simpl; try done.
  rewrite !ascii_compare_N.
  destruct (N.compare_spec (N_of_ascii x) (N_of_ascii y)) as [Hxy|Hxy|Hxy];
    destruct (N.compare_spec (N_of_ascii y) (N_of_ascii z)) as [Hyz|Hyz|Hyz];
    try done; intros H1 H2.
  - rewrite Hxy, Hyz, N.compare_refl. by eapply IH.
  - rewrite Hxy. by apply N.compare_lt_iff in Hyz as ->.
  - rewrite <-Hyz. by apply N.compare_lt_iff in Hxy as ->.
  - assert (N_of_ascii x < N_of_ascii z)%N as Hxz by lia.
    by apply N.compare_lt_iff in Hxz as ->.
Qed.

Lemma strLe_total a b : strLe a b = true ∨ strLe b a = true.
Proof.
  unfold strLe. rewrite (String.compare_antisym b a).
  destruct (String.compare a b); simpl; auto.
Qed.

Lemma strLe_trans a b c : strLe a b = true → strLe b c = true → strLe a c = true.
Proof.
  unfold strLe.
  destruct (String.compare a b) eqn:Hab; [| |done];
    destruct (String.compare b c) eqn:Hbc; try done; intros _ _.
  - apply String.compare_eq_iff in Hab as ->. by rewrite Hbc.
  - apply String.compare_eq_iff in Hab as ->. by rewrite Hbc.
  - apply String.compare_eq_iff in Hbc as <-. by rewrite Hab.
  - by rewrite (string_compare_Lt_trans a b c).
Qed.

Lemma strLe_ne_Lt a b : strLe a b = true → a ≠ b → String.compare a b = Lt.
Proof.
  unfold strLe. destruct (String.compare a b) eqn:Hab; try done.
  apply String.compare_eq_iff in Hab. done.
Qed.

(** ** Own properties *)

Section Props_facts.
Context {V : Type}.
Implicit Types (o : Props V) (k : string) (v : V).

Lemma ownGet_ownSet_eq o k v : ownGet (ownSet o k v) k = Some v.
Proof.
  induction o as [|[k' v'] o IH]; simpl.
  - by rewrite String.eqb_refl.
  - destruct (String.eqb k' k) eqn:E; simpl; rewrite E; done.
Qed.

Lemma ownGet_ownSet_ne o k k' v :
  k ≠ k' → ownGet (ownSet o k v) k' = ownGet o k'.
Proof.
  intros Hne. induction o as [|[k0 v0] o IH]; simpl.
  - by apply String.eqb_neq in Hne as ->.
  - destruct (String.eqb k0 k) eqn:E; simpl; [|by rewrite IH].
    apply String.eqb_eq in E as ->.
    by apply String.eqb_neq in Hne as ->.
Qed.

Lemma ownGet_None o k : ownGet o k = None ↔ k ∉ o.*1.
Proof.
  induction o as [|[k' v'] o IH]; simpl.
  - split; [intros _; apply not_elem_of_nil|done].
  - rewrite not_elem_of_cons.
    destruct (String.eqb_spec k' k) as [->|Hne].
    + split; [done|]. intros [? _]. done.
    + rewrite IH. split; [by intros ?; split|by intros [_ ?]].
Qed.

Lemma ownGet_Some_elem_of o k v : ownGet o k = Some v → (k, v) ∈ o.
Proof.
  induction o as [|[k' v'] o IH]; simpl; [done|].
  destruct (String.eqb_spec k' k) as [->|Hne].
  - intros [= ->]. left.
  - intros. right. auto.
Qed.

Lemma elem_of_ownGet o k v : NoDup o.*1 → (k, v) ∈ o → ownGet o k = Some v.
Proof.
  induction o as [|[k' v'] o IH]; simpl; [by intros _ ?%elem_of_nil|].
  rewrite NoDup_cons. intros [Hk' Hnd] [[= -> ->]|Hin]%elem_of_cons.
  - by rewrite String.eqb_refl.
  - destruct (String.eqb_spec k' k) as [->|Hne]; [|auto].
    destruct Hk'. apply list_elem_of_fmap. by exists (k, v).
Qed.

(** The keys after a write: unchanged, or one more at the end. *)
Lemma ownSet_keys o k v :
  (ownSet o k v).*1 = match ownGet o k with Some _ => o.*1 | None => o.*1 ++ [k] end.
Proof.
  induction o as [|[k' v'] o IH]; simpl; [done|].
  destruct (String.eqb k' k) eqn:E; simpl; [done|].
  destruct (ownGet o k); simpl in *; by f_equal.
Qed.

Lemma ownSet_NoDup o k v : NoDup o.*1 → NoDup (ownSet o k v).*1.
Proof.
  intros Hnd. rewrite ownSet_keys. destruct (ownGet o k) eqn:E; [done|].
  apply NoDup_app. split_and!; [done| |apply NoDup_singleton].
  intros x Hx ->%list_elem_of_singleton. by apply ownGet_None in E.
Qed.

(** Writing a value that measures one more than the value it replaces
    (or 1 when there was none) adds one to the sum of the measures. *)
Lemma sum_ownSet (f : V → nat) o k v :
  f v = from_option f 0 (ownGet o k) + 1 →
  sum_list (f <$> (ownSet o k v).*2) = S (sum_list (f <$> o.*2)).
Proof.
  induction o as [|[k' v'] o IH]; csimpl; intros Hv.
  - lia.
  - destruct (String.eqb k' k); csimpl in *; [lia|].
    rewrite <-Nat.add_succ_r. f_equal. exact (IH Hv).
Qed.

Lemma Forall_ownSet (P : V → Prop) o k v :
  Forall P o.*2 → P v → Forall P (ownSet o k v).*2.
Proof.
  intros Ho Hv. induction o as [|[k' v'] o IH]; csimpl in *.
  - by constructor.
  - apply Forall_cons in Ho as [Hv' Ho].
    destruct (String.eqb k' k); csimpl; constructor; auto.
Qed.

Lemma ownGet_Forall (P : V → Prop) o k v :
  Forall P o.*2 → ownGet o k = Some v → P v.
Proof.
  intros Ho Hv%ownGet_Some_elem_of. rewrite Forall_forall in Ho. apply Ho.
  apply list_elem_of_fmap. by exists (k, v).
Qed.

Lemma ownEntries_Permutation o : ownEntries o ≡ₚ o.
Proof.
  unfold ownEntries. rewrite sortBy_Permutation.
  rewrite <-(filter_app_complement (λ kv : string * V, isArrayIndex kv.1 = true) o) at 3.
  f_equiv; [done|]. erewrite list_filter_iff; [done|]. intros [k v]; simpl.
  by destruct (isArrayIndex k).
Qed.

Lemma objectValues_Permutation o : objectValues o ≡ₚ o.*2.
Proof. unfold objectValues. by rewrite ownEntries_Permutation. Qed.
End Props_facts.

(** ** Month keys *)

Lemma string_length_app a b :
  String.length (a +:+ b) = String.length a + String.length b.
Proof. induction a as [|c a IH]; simpl; [done|]. by rewrite IH. Qed.

(** Two texts that end in suffixes of the same length split alike. *)
Lemma string_app_inj_suffix a1 a2 b1 b2 :
  String.length b1 = String.length b2 →
  a1 +:+ b1 = a2 +:+ b2 → a1 = a2 ∧ b1 = b2.
Proof.
  revert a2. induction a1 as [|c a1 IH]; intros [|d a2] Hlen Heq.
  - change (b1 = b2) in Heq. done.
  - change (b1 = String d (a2 +:+ b2)) in Heq.
    subst b1. simpl in Hlen. rewrite string_length_app in Hlen. lia.
  - change (String c (a1 +:+ b1) = b2) in Heq.
    subst b2. simpl in Hlen. rewrite string_length_app in Hlen. lia.
  - change (String c (a1 +:+ b1) = String d (a2 +:+ b2)) in Heq.
    injection Heq as -> Heq. destruct (IH a2 Hlen Heq) as [-> ->]. done.
Qed.

Lemma keyText_app a b : keyText (a +:+ b) = keyText a && keyText b.
Proof.
  induction a as [|c a IH]; simpl; [done|]. by rewrite IH, andb_assoc.
Qed.

Lemma pretty_N_char_keyChar x : keyChar (pretty_N_char x) = true.
Proof. unfold pretty_N_char. by repeat case_match. Qed.

Lemma pretty_N_go_keyText x s :
  keyText s = true → keyText (pretty_N_go x s) = true.
Proof.
  revert s. induction (N.lt_wf_0 x) as [x _ IH]; intros s Hs.
  destruct (decide (0 < x)%N) as [Hpos|Hzero].
  - rewrite pretty_N_go_step by done. apply IH; [by apply N.div_lt|].
    simpl. by rewrite pretty_N_char_keyChar.
  - assert (x = 0%N) as -> by lia. by rewrite pretty_N_go_0.
Qed.

Lemma pretty_N_keyText (x : N) : keyText (pretty x) = true.
Proof.
  unfold pretty, pretty_N. case_decide; [done|]. by apply pretty_N_go_keyText.
Qed.

Lemma pretty_nat_keyText (n : nat) : keyText (pretty n) = true.
Proof. apply pretty_N_keyText. Qed.

Lemma pretty_Z_keyText (z : Z) : keyText (pretty z) = true.
Proof.
  destruct z as [|p|p]; [done|apply pretty_N_keyText|].
  unfold pretty, pretty_Z. rewrite keyText_app. simpl.
  apply (pretty_N_keyText (N.pos p)).
Qed.

Lemma padStart_zero_keyText s n :
  keyText s = true → keyText (padStart s n "0") = true.
Proof.
  intros Hs. unfold padStart. rewrite keyText_app, Hs, andb_true_r.
  induction (n - String.length s) as [|m IH]; simpl; [done|]. by rewrite IH.
Qed.

Lemma monthText_length m : m < 12 → String.length (monthText m) = 2.
Proof. intros Hm. do 12 (destruct m as [|m]; [done|]). lia. Qed.

Lemma monthText_inj m1 m2 :
  m1 < 12 → m2 < 12 → monthText m1 = monthText m2 → m1 = m2.
Proof.
  intros H1 H2.
  do 12 (destruct m1 as [|m1]; [do 12 (destruct m2 as [|m2]; [by vm_compute|]); lia|]).
  lia.
Qed.

Lemma keyOfMonth_inj y1 m1 y2 m2 :
  m1 < 12 → m2 < 12 → keyOfMonth y1 m1 = keyOfMonth y2 m2 → y1 = y2 ∧ m1 = m2.
Proof.
  intros H1 H2 Heq. unfold keyOfMonth in Heq.
  apply string_app_inj_suffix in Heq as [Hy Hm].
  - split; [by apply (inj pretty)|].
    apply String.app_inj in Hm. by apply monthText_inj.
  - by rewrite !string_length_app, !monthText_length.
Qed.

Lemma keyOfMonth_keyText y m : keyText (keyOfMonth y m) = true.
Proof.
  unfold keyOfMonth, monthText. rewrite !keyText_app, pretty_Z_keyText. simpl.
  apply padStart_zero_keyText, pretty_nat_keyText.
Qed.

Lemma objectPrototypeGet_inherited k :
  objectPrototypeGet k ≠ VUndefined ↔ k ∈ inheritedNames.
Proof.
  unfold objectPrototypeGet, inheritedNames.
  destruct (String.eqb_spec k "__proto__") as [->|Hne].
  - split; [left|done].
  - rewrite elem_of_cons.
    destruct (ownGet objectPrototypeFunctions k) as [f|] eqn:E.
    + split; [intros _; right|done].
      apply ownGet_Some_elem_of in E. apply list_elem_of_fmap. by exists (k, f).
    + split; [done|]. intros [?|Hin]; [done|]. by apply ownGet_None in E.
Qed.

Lemma keyText_not_inherited k : keyText k = true → objectPrototypeGet k = VUndefined.
Proof.
  intros Hk. destruct (decide (objectPrototypeGet k = VUndefined)) as [|Hne]; [done|].
  apply objectPrototypeGet_inherited in Hne.
  assert (Forall (λ n, keyText n = false) inheritedNames) as Hall
    by (repeat constructor).
  rewrite Forall_forall in Hall. apply Hall in Hne. congruence.
Qed.

Section monthKey_facts.
Context `{Host}.

Lemma monthKey_keyOfMonth t : monthKey t = keyOfMonth (getFullYear t) (getMonth t).
Proof. reflexivity. Qed.

Lemma monthKey_keyText t : keyText (monthKey t) = true.
Proof. apply keyOfMonth_keyText. Qed.

(** A month key is never the name of the prototype accessor, so writing
    it always creates or replaces an own property. *)
Lemma monthKey_not_proto t : monthKey t ≠ "__proto__".
Proof. intros Heq. pose proof (monthKey_keyText t) as Hk. by rewrite Heq in Hk. Qed.

(** A month key is never inherited from [Object.prototype]. *)
Lemma monthKey_not_inherited t : objectPrototypeGet (monthKey t) = VUndefined.
Proof. apply keyText_not_inherited, monthKey_keyText. Qed.

(** The key tells the year and the month. *)
Lemma monthKey_inj t1 t2 :
  monthKey t1 = monthKey t2 →
  getFullYear t1 = getFullYear t2 ∧ getMonth t1 = getMonth t2.
Proof. apply keyOfMonth_inj; apply getMonth_range. Qed.

(** So both labels are determined by the key. *)
Lemma monthKey_labels t1 t2 :
  monthKey t1 = monthKey t2 →
  formatDate t1 = formatDate t2 ∧ formatAxisDate t1 = formatAxisDate t2.
Proof.
  intros [Hy Hm]%monthKey_inj. unfold formatDate, formatAxisDate.
  by rewrite Hy, Hm.
Qed.
End monthKey_facts.

(** ** The monthly aggregation *)

Section monthly_facts.
Context `{Host}.
Implicit Types (rows adasData adsData : list Row) (row : Row).
Implicit Types (o : Props MonthBucket) (ts : list Z) (t : Z) (k : string).

Lemma monthlyCallback_eq o row :
  monthlyCallback o row =
    match incidentTime row with
    | Some t => (addTime o t, callsFor t)
    | None => (o, [])
    end.
Proof. unfold monthlyCallback, incidentTime. by destruct (newDate _). Qed.

Lemma forEachT_eq rows o :
  forEachT rows o =
    (foldl addTime o (omap incidentTime rows),
     concat (callsFor <$> omap incidentTime rows)).
Proof.
  revert o. induction rows as [|row rows IH]; intros o; csimpl; [done|].
  rewrite monthlyCallback_eq.
  destruct (incidentTime row) as [t|]; unfold mbind, Traced_bind; csimpl;
    by rewrite IH.
Qed.

Lemma monthlyAccidentsOf_eq adasData adsData :
  monthlyAccidentsOf adasData adsData
  = foldl addTime [] (omap incidentTime (adasData ++ adsData)).
Proof. unfold monthlyAccidentsOf. by rewrite forEachT_eq. Qed.

Lemma omap_incidentTime_filter rows :
  omap incidentTime (filter validDate rows) = omap incidentTime rows.
Proof.
  induction rows as [|row rows IH]; [done|].
  rewrite filter_cons.
  destruct (decide (validDate row)) as [[t Ht]|Hnone]; csimpl.
  - by rewrite Ht, IH.
  - destruct (incidentTime row) eqn:E; [|done].
    destruct Hnone. unfold validDate. rewrite E. by eexists.
Qed.

Lemma length_filter_validDate rows :
  length (filter validDate rows) = length (omap incidentTime rows).
Proof.
  induction rows as [|row rows IH]; [done|].
  rewrite filter_cons. csimpl.
  destruct (decide (validDate row)) as [[t Ht]|Hnone]; csimpl.
  - rewrite Ht. simpl. by rewrite IH.
  - destruct (incidentTime row) eqn:E; [|done].
    destruct Hnone. unfold validDate. rewrite E. by eexists.
Qed.

Lemma omap_incidentMonth rows :
  omap incidentMonth rows
  = (λ t, (getFullYear t, getMonth t)) <$> omap incidentTime rows.
Proof.
  induction rows as [|row rows IH]; [done|]. csimpl. unfold incidentMonth at 1.
  destruct (incidentTime row); csimpl; by rewrite IH.
Qed.

Lemma countKey_snoc k ts t :
  countKey k (ts ++ [t]) = countKey k ts + (if decide (monthKey t = k) then 1 else 0).
Proof.
  unfold countKey. rewrite filter_app, length_app. f_equal.
  rewrite filter_cons, filter_nil. by case_decide.
Qed.

Lemma previousCount_countKey o ts k :
  monthlyInv o ts → previousCount o k = countKey k ts.
Proof.
  intros Hinv. unfold previousCount. destruct (ownGet o k) as [b|] eqn:E.
  - by destruct (inv_present _ _ Hinv k b E) as (_ & -> & _).
  - by rewrite (inv_absent _ _ Hinv k E).
Qed.

Lemma addTime_inv o ts t : monthlyInv o ts → monthlyInv (addTime o t) (ts ++ [t]).
Proof.
  intros Hinv. unfold addTime. split.
  - apply ownSet_NoDup, Hinv.
  - intros k. destruct (decide (monthKey t = k)) as [<-|Hne].
    + by rewrite ownGet_ownSet_eq.
    + rewrite ownGet_ownSet_ne by done. intros E.
      rewrite countKey_snoc, (inv_absent _ _ Hinv k E), decide_False by done. done.
  - intros k b. destruct (decide (monthKey t = k)) as [<-|Hne].
    + rewrite ownGet_ownSet_eq. intros [= <-]. simpl. split_and!.
      * done.
      * rewrite countKey_snoc, decide_True by done.
        by rewrite (previousCount_countKey o ts).
      * exists t. split; [|done]. apply elem_of_app. right. left.
      * intros t' _ Heq. by apply monthKey_labels.
    + rewrite ownGet_ownSet_ne by done. intros E.
      destruct (inv_present _ _ Hinv k b E) as (Hk & Hc & (t0 & Ht0 & Hk0) & Hl).
      split_and!; [done| | |].
      * rewrite countKey_snoc, decide_False by done. lia.
      * exists t0. split; [|done]. apply elem_of_app. by left.
      * intros t' [Ht'|Ht']%elem_of_app Heq; [by apply Hl|].
        apply list_elem_of_singleton in Ht' as ->. done.
  - rewrite (sum_ownSet count) by done. rewrite (inv_sum _ _ Hinv), length_app. simpl. lia.
Qed.

Lemma monthly_inv ts : monthlyInv (foldl addTime [] ts) ts.
Proof.
  induction ts as [|t ts IH] using rev_ind.
  - split; simpl; try done. apply NoDup_nil_2.
  - rewrite foldl_snoc. by apply addTime_inv.
Qed.

(** In every stored bucket the [sortKey] field is the property name. *)
Lemma inv_sortKeys o ts : monthlyInv o ts → sortKey <$> o.*2 = o.*1.
Proof.
  intros Hinv.
  assert (∀ k b, (k, b) ∈ o → sortKey b = k) as Hkeys.
  { intros k b Hin. apply (elem_of_ownGet _ _ _ (inv_NoDup _ _ Hinv)) in Hin.
    by destruct (inv_present _ _ Hinv k b Hin) as [? _]. }
  clear Hinv. induction o as [|[k b] o IH]; simpl; [done|].
  rewrite (Hkeys k b) by left. f_equal. apply IH.
  intros k' b' Hin. apply Hkeys. by right.
Qed.

Lemma monthlyDataArray_Permutation adasData adsData :
  monthlyDataArray adasData adsData ≡ₚ (monthlyAccidentsOf adasData adsData).*2.
Proof.
  unfold monthlyDataArray, arraySort.
  by rewrite sortBy_Permutation, objectValues_Permutation.
Qed.

Lemma monthlyAccidentsOf_inv adasData adsData :
  monthlyInv (monthlyAccidentsOf adasData adsData) (validTimes adasData adsData).
Proof. rewrite monthlyAccidentsOf_eq. apply monthly_inv. Qed.
End monthly_facts.

Section monthly_claims.
Context `{Host}.
Implicit Types (rows adasData adsData : list Row) (row : Row).

Lemma monthlyAccidentsOf_filter adasData adsData :
  monthlyAccidentsOf (filter validDate adasData) (filter validDate adsData)
  = monthlyAccidentsOf adasData adsData.
Proof.
  rewrite !monthlyAccidentsOf_eq, <-filter_app. by rewrite omap_incidentTime_filter.
Qed.

(** Every property name of [monthlyAccidents] is the key of the month of
    some validly dated row. *)
Lemma monthlyAccidentsOf_keys adasData adsData k :
  k ∈ (monthlyAccidentsOf adasData adsData).*1 →
  ∃ t, t ∈ validTimes adasData adsData ∧ monthKey t = k.
Proof.
  intros Hk. pose proof (monthlyAccidentsOf_inv adasData adsData) as Hinv.
  destruct (ownGet (monthlyAccidentsOf adasData adsData) k) as [b|] eqn:E.
  - by destruct (inv_present _ _ Hinv k b E) as (_ & _ & ? & _).
  - by apply ownGet_None in E.
Qed.

Lemma monthlyDataArray_sortKeys adasData adsData :
  sortKey <$> monthlyDataArray adasData adsData
  ≡ₚ (monthlyAccidentsOf adasData adsData).*1.
Proof.
  rewrite monthlyDataArray_Permutation.
  by rewrite (inv_sortKeys _ _ (monthlyAccidentsOf_inv adasData adsData)).
Qed.

Lemma monthlyDataArray_NoDup adasData adsData :
  NoDup (sortKey <$> monthlyDataArray adasData adsData).
Proof.
  rewrite monthlyDataArray_sortKeys.
  apply (inv_NoDup _ _ (monthlyAccidentsOf_inv adasData adsData)).
Qed.

(** C1. The counts of the month buckets add up to the number of records
    of the two feeds whose incident date parses; there are at most as many
    buckets as there are distinct (year, month) pairs among those records;
    and the buckets are those of the validly dated records alone, so a
    record whose date does not parse adds to no count. *)
Theorem monthly_counts_cover_valid_dates adasData adsData :
  let buckets := monthlyDataArray adasData adsData in
  sum_list (count <$> buckets)
    = length (filter validDate adasData) + length (filter validDate adsData)
  ∧ (length buckets ≤ length (remove_dups (omap incidentMonth (adasData ++ adsData))))%nat
  ∧ buckets = monthlyDataArray (filter validDate adasData) (filter validDate adsData).
Proof.
  simpl. pose proof (monthlyAccidentsOf_inv adasData adsData) as Hinv. split_and!.
  - rewrite monthlyDataArray_Permutation, (inv_sum _ _ Hinv).
    unfold validTimes. by rewrite <-length_filter_validDate, filter_app, length_app.
  - rewrite <-(length_fmap sortKey), monthlyDataArray_sortKeys.
    rewrite <-(length_fmap (λ ym : Z * nat, keyOfMonth ym.1 ym.2) (remove_dups _)).
    apply submseteq_length, NoDup_submseteq; [apply Hinv|].
    intros k (t & Ht & <-)%monthlyAccidentsOf_keys.
    apply list_elem_of_fmap. exists (getFullYear t, getMonth t). split; [done|].
    apply elem_of_remove_dups. rewrite omap_incidentMonth.
    by apply (list_elem_of_fmap_2 (λ t, (getFullYear t, getMonth t))).
  - unfold monthlyDataArray. by rewrite monthlyAccidentsOf_filter.
Qed.

Lemma monthlyDataArray_keyText adasData adsData b :
  b ∈ monthlyDataArray adasData adsData → keyText (sortKey b) = true.
Proof.
  intros Hb. apply (list_elem_of_fmap_2 sortKey) in Hb.
  rewrite monthlyDataArray_sortKeys in Hb.
  apply monthlyAccidentsOf_keys in Hb as (t & _ & <-). apply monthKey_keyText.
Qed.

(** The buckets are in the order of the code units of their keys. *)
Lemma monthlyDataArray_sorted adasData adsData :
  StronglySorted (λ a b, String.compare (sortKey a) (sortKey b) = Lt)
    (monthlyDataArray adasData adsData).
Proof.
  pose proof (monthlyDataArray_NoDup adasData adsData) as Hnd.
  pose proof (monthlyDataArray_keyText adasData adsData) as Hkey.
  assert (StronglySorted (λ a b, strLe (sortKey a) (sortKey b) = true)
            (monthlyDataArray adasData adsData)) as Hsorted.
  { unfold monthlyDataArray, arraySort in *.
    rewrite (sortBy_ext _ (λ a b, strLe (sortKey a) (sortKey b))).
    - apply sortBy_StronglySorted.
      + intros x y. apply strLe_total.
      + intros x y z. apply strLe_trans.
    - intros x y Hx Hy. unfold strLe.
      rewrite localeCompare_keyText; [done|apply Hkey..];
        by rewrite sortBy_Permutation. }
  induction Hsorted as [|a l Hl IH Hall]; [constructor|].
  rewrite fmap_cons in Hnd. apply NoDup_cons in Hnd as [Ha Hnd].
  constructor.
  - apply IH; [done|]. intros b Hb. apply Hkey. by right.
  - rewrite Forall_forall in Hall |- *. intros b Hb.
    apply strLe_ne_Lt; [by apply Hall|].
    intros Heq. apply Ha. rewrite Heq. by apply list_elem_of_fmap_2.
Qed.

(** C2. The month buckets come out strictly ascending by [sortKey] in the
    lexicographic order of the code units: each bucket's key is below the
    key of the bucket after it (and of every later bucket), and no two
    buckets have the same key. *)
Theorem monthly_buckets_strictly_ascending adasData adsData :
  let buckets := monthlyDataArray adasData adsData in
  (∀ i a b, buckets !! i = Some a → buckets !! S i = Some b →
     String.compare (sortKey a) (sortKey b) = Lt)
  ∧ (∀ i j a b, i < j → buckets !! i = Some a → buckets !! j = Some b →
       String.compare (sortKey a) (sortKey b) = Lt)
  ∧ NoDup (sortKey <$> buckets).
Proof.
  simpl. pose proof (monthlyDataArray_sorted adasData adsData) as Hsorted.
  assert (∀ i j a b, i < j →
    monthlyDataArray adasData adsData !! i = Some a →
    monthlyDataArray adasData adsData !! j = Some b →
    String.compare (sortKey a) (sortKey b) = Lt) as Hlt.
  { induction Hsorted as [|x l Hl IH Hall]; intros i j a b Hij Hi Hj; [done|].
    destruct j as [|j]; [lia|]. destruct i as [|i]; simpl in *.
    - injection Hi as ->. rewrite Forall_forall in Hall.
      by eapply Hall, list_elem_of_lookup_2.
    - apply (IH i j); [lia|done..]. }
  split_and!; [|done|apply monthlyDataArray_NoDup].
  intros i a b. apply Hlt. lia.
Qed.
End monthly_claims.

Section shared_month.
Context `{Host}.
Implicit Types (rows adasData adsData : list Row) (row : Row).

Lemma rowsInMonth_countKey y m rows :
  m < 12 →
  length (rowsInMonth (y, m) rows) = countKey (keyOfMonth y m) (omap incidentTime rows).
Proof.
  intros Hm. unfold rowsInMonth, countKey.
  induction rows as [|row rows IH]; [done|].
  rewrite filter_cons. csimpl.
  destruct (incidentTime row) as [t|] eqn:Et; csimpl.
  - assert (incidentMonth row = Some (getFullYear t, getMonth t)) as Hrow
      by (unfold incidentMonth; by rewrite Et).
    rewrite filter_cons.
    destruct (decide (monthKey t = keyOfMonth y m)) as [Heq|Hne].
    + rewrite monthKey_keyOfMonth in Heq.
      apply keyOfMonth_inj in Heq as [Hy Hm']; [|apply getMonth_range|done].
      rewrite decide_True by congruence. simpl. by rewrite IH.
    + rewrite decide_False; [done|]. rewrite Hrow. intros [= <- <-]. by apply Hne.
  - assert (incidentMonth row = None) as Hrow
      by (unfold incidentMonth; by rewrite Et).
    rewrite decide_False by (by rewrite Hrow). done.
Qed.

Lemma rowsInMonth_month_range y m rows : rowsInMonth (y, m) rows ≠ [] → m < 12.
Proof.
  intros Hne. destruct (rowsInMonth (y, m) rows) as [|row l] eqn:E; [done|].
  assert (row ∈ rowsInMonth (y, m) rows) as Hin by (rewrite E; left).
  apply list_elem_of_filter in Hin as [Hrow _]. unfold incidentMonth in Hrow.
  destruct (incidentTime row) as [t|]; [|done].
  injection Hrow as _ <-. apply getMonth_range.
Qed.

Lemma filter_key_absent {A} (f : A → string) (l : list A) (k : string) :
  k ∉ f <$> l → filter (λ x, f x = k) l = [].
Proof.
  induction l as [|x l IH]; [done|].
  rewrite fmap_cons, not_elem_of_cons, filter_cons. intros [Hx Hl].
  rewrite decide_False by done. auto.
Qed.

Lemma filter_unique_key {A} (f : A → string) (l : list A) (b : A) :
  NoDup (f <$> l) → b ∈ l → filter (λ x, f x = f b) l = [b].
Proof.
  induction l as [|x l IH]; [by intros _ ?%elem_of_nil|].
  rewrite fmap_cons, NoDup_cons, filter_cons.
  intros [Hx Hnd] [->|Hin]%elem_of_cons.
  - rewrite decide_True by done. f_equal. by apply filter_key_absent.
  - rewrite decide_False; [by apply IH|].
    intros Heq. apply Hx. rewrite Heq. by apply list_elem_of_fmap_2.
Qed.

(** C7. When both feeds have a validly dated record in a month, the
    combined aggregation has exactly one bucket with that month's key, and
    its count is the number of the records of that month in the first feed
    plus their number in the second; no two buckets share a key. *)
Theorem shared_month_single_bucket adasData adsData (y : Z) (m : nat) :
  rowsInMonth (y, m) adasData ≠ [] →
  rowsInMonth (y, m) adsData ≠ [] →
  (∃ b, filter (λ b, sortKey b = keyOfMonth y m) (monthlyDataArray adasData adsData) = [b]
      ∧ sortKey b = keyOfMonth y m
      ∧ count b = length (rowsInMonth (y, m) adasData)
                  + length (rowsInMonth (y, m) adsData))
  ∧ NoDup (sortKey <$> monthlyDataArray adasData adsData).
Proof.
  intros HA HB. split; [|apply monthlyDataArray_NoDup].
  pose proof (rowsInMonth_month_range _ _ _ HA) as Hm.
  pose proof (monthlyAccidentsOf_inv adasData adsData) as Hinv.
  assert (countKey (keyOfMonth y m) (validTimes adasData adsData)
          = length (rowsInMonth (y, m) adasData) + length (rowsInMonth (y, m) adsData))
    as Hcount.
  { unfold validTimes. rewrite <-rowsInMonth_countKey by done.
    unfold rowsInMonth. by rewrite filter_app, length_app. }
  destruct (ownGet (monthlyAccidentsOf adasData adsData) (keyOfMonth y m))
    as [b|] eqn:E.
  - destruct (inv_present _ _ Hinv _ b E) as (Hk & Hc & _).
    exists b. split_and!; [|done|by rewrite Hc].
    rewrite <-Hk. apply filter_unique_key; [apply monthlyDataArray_NoDup|].
    rewrite monthlyDataArray_Permutation.
    apply ownGet_Some_elem_of in E.
    apply list_elem_of_fmap. by exists (keyOfMonth y m, b).
  - apply (inv_absent _ _ Hinv) in E. rewrite Hcount in E.
    destruct (rowsInMonth (y, m) adasData); [done|]. simpl in E. lia.
Qed.
End shared_month.

Section labels.
Context `{Host}.
Implicit Types (rows adasData adsData : list Row) (row : Row).

(** C8, as the code has it. The loop calls [formatDate] and
    [formatAxisDate] for every validly dated record, in the order of the
    records, the first of a month or not: each increment writes a fresh
    bucket with labels computed from the record at hand. The labels depend
    on the month key alone, so the labels a bucket ends up with are those
    of the first record of its month, as of any other. *)
Theorem labels_computed_for_every_record adasData adsData :
  (forEachT (adasData ++ adsData) []).2
    = concat (callsFor <$> omap incidentTime (adasData ++ adsData))
  ∧ ∀ b row t,
      b ∈ monthlyDataArray adasData adsData →
      row ∈ adasData ++ adsData →
      incidentTime row = Some t →
      monthKey t = sortKey b →
      date b = formatDate t ∧ axisDate b = formatAxisDate t.
Proof.
  split; [by rewrite forEachT_eq|].
  intros b row t Hb Hrow Ht Hkey.
  pose proof (monthlyAccidentsOf_inv adasData adsData) as Hinv.
  rewrite monthlyDataArray_Permutation in Hb.
  apply list_elem_of_fmap in Hb as ([k b'] & -> & Hin). simpl in *.
  apply (elem_of_ownGet _ _ _ (inv_NoDup _ _ Hinv)) in Hin.
  destruct (inv_present _ _ Hinv k b' Hin) as (Hk & _ & _ & Hlabels).
  apply Hlabels; [|congruence].
  apply list_elem_of_omap. by exists row.
Qed.
End labels.

(** ** The severity aggregation *)

Section severity_facts.
Implicit Types (data : list Row) (row : Row) (acc : Props Prim) (s : string).

Lemma severityCounts_true row :
  severityCounts (severityOf row) = true ↔ namedSeverity row.
Proof.
  unfold namedSeverity. destruct (severityOf row) as [s|]; simpl.
  - rewrite andb_true_iff, !negb_true_iff, !String.eqb_neq. split.
    + intros [??]. by exists s.
    + by intros (s' & [= <-] & ? & ?).
  - split; [done|]. by intros (? & ? & _).
Qed.

Lemma severityCounts_false row :
  severityCounts (severityOf row) = false ↔ excludedSeverity row.
Proof.
  unfold excludedSeverity. destruct (severityOf row) as [s|]; simpl.
  - rewrite andb_false_iff, !negb_false_iff, !String.eqb_eq. split.
    + intros [->| ->]; auto.
    + intros [?|[[= ->]|[= ->]]]; [done|by left|by right].
  - split; [by left|done].
Qed.

Lemma severityReducer_excluded acc row :
  excludedSeverity row → severityReducer acc row = acc.
Proof.
  intros Hrow%severityCounts_false. unfold severityReducer, severityOf in *.
  by rewrite Hrow.
Qed.

Lemma severityReducer_named acc row s :
  severityOf row = Some s → s ≠ "" → s ≠ "Unknown" →
  severityReducer acc row
  = setProp acc s (jsAdd (jsOr (getProp acc s) (VPrim (Num 0))) (VPrim (Num 1))).
Proof.
  intros Hs H1 H2. unfold severityReducer.
  assert (severityCounts (severityOf row) = true) as Hc
    by (apply severityCounts_true; by exists s).
  unfold severityOf in *. by rewrite Hc, Hs.
Qed.

(** The reducer reads nothing but the severity field. *)
Lemma severityReducer_reads_severity acc row row' :
  severityOf row = severityOf row' →
  severityReducer acc row = severityReducer acc row'.
Proof. unfold severityReducer, severityOf. by intros ->. Qed.

Lemma setProp_keys acc s p k :
  k ∈ (setProp acc s p).*1 → k ∈ acc.*1 ∨ k = s.
Proof.
  unfold setProp. destruct (String.eqb s "__proto__"); [by left|].
  rewrite ownSet_keys. destruct (ownGet acc s); [by left|].
  rewrite elem_of_app, list_elem_of_singleton. done.
Qed.

(** Only a present, non-empty severity other than ["Unknown"] ever names a
    property of the accumulator. *)
Lemma severity_keys data k :
  k ∈ (foldl severityReducer [] data).*1 → k ≠ "" ∧ k ≠ "Unknown".
Proof.
  induction data as [|row data IH] using rev_ind; [by intros ?%elem_of_nil|].
  rewrite foldl_snoc.
  destruct (severityCounts (severityOf row)) eqn:E.
  - apply severityCounts_true in E as (s & Hs & H1 & H2).
    rewrite (severityReducer_named _ _ s) by done.
    intros [?| ->]%setProp_keys; [auto|done].
  - apply severityCounts_false in E. by rewrite severityReducer_excluded.
Qed.

Lemma injuriesData_names data c :
  c ∈ injuriesData data → name c ∈ (foldl severityReducer [] data).*1.
Proof.
  unfold injuriesData. intros ([k p] & -> & Hin)%list_elem_of_fmap. simpl.
  rewrite ownEntries_Permutation in Hin.
  apply list_elem_of_fmap. by exists (k, p).
Qed.

(** C6. A record whose severity is missing, empty or ["Unknown"] leaves
    the category counts and the total of its feed as they are without it,
    and no category is ever named ["Unknown"] or has an empty name. *)
Theorem excluded_severity_never_counted (data1 data2 : list Row) row :
  excludedSeverity row →
  injuriesData (data1 ++ row :: data2) = injuriesData (data1 ++ data2)
  ∧ totalOf (injuriesData (data1 ++ row :: data2))
    = totalOf (injuriesData (data1 ++ data2))
  ∧ ∀ data c, c ∈ injuriesData data → name c ≠ "Unknown" ∧ name c ≠ "".
Proof.
  intros Hrow.
  assert (injuriesData (data1 ++ row :: data2) = injuriesData (data1 ++ data2)) as Heq.
  { unfold injuriesData. rewrite !foldl_app. simpl.
    by rewrite severityReducer_excluded. }
  split_and!; [done|by rewrite Heq|].
  intros data c Hc%injuriesData_names%severity_keys. tauto.
Qed.
End severity_facts.

Section plain_feeds.
Implicit Types (data : list Row) (row : Row) (acc : Props Prim) (s : string).

(** On a name that is not inherited the reducer adds one to a number. *)
Lemma increment_plain acc s :
  s ∉ inheritedNames → Forall positiveNumber acc.*2 →
  jsAdd (jsOr (getProp acc s) (VPrim (Num 0))) (VPrim (Num 1))
  = Num (from_option numberOf 0 (ownGet acc s) + 1).
Proof.
  intros Hs Hacc. unfold getProp.
  destruct (ownGet acc s) as [p|] eqn:E; simpl.
  - destruct (ownGet_Forall _ _ _ _ Hacc E) as (m & -> & Hm).
    destruct m as [|m]; [lia|]. done.
  - destruct (decide (objectPrototypeGet s = VUndefined)) as [->|Hne]; [done|].
    by apply objectPrototypeGet_inherited in Hne.
Qed.

Lemma setProp_plain acc s p :
  s ∉ inheritedNames → setProp acc s p = ownSet acc s p.
Proof.
  intros Hs. unfold setProp.
  destruct (String.eqb_spec s "__proto__") as [->|]; [|done].
  destruct Hs. left.
Qed.

Lemma severity_fold_plain data :
  Forall plainSeverity data →
  let acc := foldl severityReducer [] data in
  Forall positiveNumber acc.*2
  ∧ sum_list (numberOf <$> acc.*2) = length (filter namedSeverity data).
Proof.
  simpl. induction data as [|row data IH] using rev_ind; intros Hplain.
  - split; [constructor|done].
  - apply Forall_app in Hplain as [Hdata Hrow].
    apply (proj1 (Forall_singleton _ _)) in Hrow.
    destruct (IH Hdata) as [Hpos Hsum].
    rewrite foldl_snoc, filter_app, length_app, filter_cons, filter_nil.
    destruct (decide (namedSeverity row)) as [(s & Hs & H1 & H2)|Hex]; simpl.
    + rewrite (severityReducer_named _ _ s) by done.
      pose proof (Hrow s Hs) as Hplain.
      rewrite increment_plain, setProp_plain by done. split.
      * apply Forall_ownSet; [done|]. eexists. split; [done|lia].
      * rewrite sum_ownSet by done. lia.
    + rewrite severityReducer_excluded.
      * split; [done|lia].
      * apply severityCounts_false.
        destruct (severityCounts (severityOf row)) eqn:E; [|done].
        by apply severityCounts_true in E.
Qed.

Lemma totalOf_numbers (items : list CategoryCount) (a : nat) :
  Forall (λ c, positiveNumber (value c)) items →
  foldl (λ sum item, jsAdd (VPrim sum) (VPrim (value item))) (Num a) items
  = Num (a + sum_list ((λ c, numberOf (value c)) <$> items)).
Proof.
  revert a. induction items as [|c items IH]; intros a Hall; csimpl.
  - f_equal. lia.
  - apply Forall_cons in Hall as [(m & Hm & _) Hall].
    rewrite Hm. change (jsAdd (VPrim (Num a)) (VPrim (Num m))) with (Num (a + m)).
    rewrite IH by done. f_equal. simpl. lia.
Qed.

(** The total of a feed whose severities are not inherited names is the
    number of its records with a present, non-empty severity other than
    ["Unknown"], and it is the sum of the category values, which are all
    positive numbers. *)
Lemma plain_feed_total data :
  Forall plainSeverity data →
  Forall (λ c, positiveNumber (value c)) (injuriesData data)
  ∧ totalOf (injuriesData data)
    = Num (sum_list ((λ c, numberOf (value c)) <$> injuriesData data))
  ∧ totalOf (injuriesData data) = Num (length (filter namedSeverity data)).
Proof.
  intros Hplain. destruct (severity_fold_plain data Hplain) as [Hpos Hsum].
  assert (Forall (λ c, positiveNumber (value c)) (injuriesData data)) as Hall.
  { unfold injuriesData. rewrite Forall_fmap.
    rewrite Forall_fmap in Hpos.
    eapply Forall_impl; [by rewrite ownEntries_Permutation|]. by intros [??]. }
  assert (sum_list ((λ c, numberOf (value c)) <$> injuriesData data)
          = length (filter namedSeverity data)) as Hlen.
  { rewrite <-Hsum. unfold injuriesData.
    rewrite <-!list_fmap_compose.
    by rewrite ownEntries_Permutation. }
  unfold totalOf. rewrite totalOf_numbers by done. simpl.
  by rewrite Hlen.
Qed.
End plain_feeds.

(** C3 at a feed with one record whose severity is the name of a property
    that object literals inherit. One record has a present, non-empty
    severity other than ["Unknown"], yet the category value is not the
    number 1 but the source text of the inherited function with a 1 after
    it, and the total is that text with a 0 in front. *)
Theorem inherited_severity_breaks_total :
  let feed := [incident "2021-07-14" "constructor"] in
  length (filter namedSeverity feed) = 1
  ∧ injuriesData feed
    = [ {| name := "constructor";
           value := Str "function Object() { [native code] }1" |} ]
  ∧ totalOf (injuriesData feed) = Str "0function Object() { [native code] }1"
  ∧ totalOf (injuriesData feed) ≠ Num 1.
Proof. by vm_compute. Qed.

(** ** Records whose date does not parse *)

Section invalid_dates.
Context `{Host}.
Implicit Types (rows data adasData adsData : list Row) (row : Row).

Lemma omap_incidentTime_invalid rows1 row rows2 :
  incidentTime row = None →
  omap incidentTime (rows1 ++ row :: rows2) = omap incidentTime (rows1 ++ rows2).
Proof. intros Hrow. rewrite !omap_app. csimpl. by rewrite Hrow. Qed.

(** A record whose date does not parse is skipped by the monthly loop,
    in whichever feed it is. *)
Lemma invalid_date_skipped_by_monthly adas1 adas2 ads1 ads2 row :
  incidentTime row = None →
  monthlyDataArray (adas1 ++ row :: adas2) ads1 = monthlyDataArray (adas1 ++ adas2) ads1
  ∧ monthlyDataArray adas1 (ads1 ++ row :: ads2) = monthlyDataArray adas1 (ads1 ++ ads2).
Proof.
  intros Hrow. unfold monthlyDataArray.
  rewrite !monthlyAccidentsOf_eq, !omap_app. csimpl. by rewrite Hrow.
Qed.

(** The severity aggregation does not read the incident date: giving the
    record any other date leaves the category counts as they are. *)
Lemma severity_ignores_incident_date data1 data2 row (d : string) :
  injuriesData (data1 ++ <["Incident Date" := d]> row :: data2)
  = injuriesData (data1 ++ row :: data2).
Proof.
  unfold injuriesData. rewrite !foldl_app. simpl.
  rewrite (severityReducer_reads_severity _ _ row); [done|].
  unfold severityOf. by rewrite lookup_insert_ne.
Qed.

(** In a feed whose severities are not inherited names, a record whose
    date does not parse and whose severity is present, non-empty and not
    ["Unknown"] is counted in the total. *)
Lemma invalid_date_counted_in_plain_feed data1 data2 row :
  incidentTime row = None → namedSeverity row →
  Forall plainSeverity (data1 ++ row :: data2) →
  totalOf (injuriesData (data1 ++ row :: data2))
  = Num (S (length (filter namedSeverity (data1 ++ data2)))).
Proof.
  intros _ Hrow Hplain.
  destruct (plain_feed_total _ Hplain) as (_ & _ & ->). f_equal.
  rewrite !filter_app, filter_cons, decide_True, !length_app by done. simpl. lia.
Qed.

(** C5 at a record with an empty incident date and the severity
    [__proto__]. The monthly loop skips the record, as it should. The
    severity is present, non-empty and not ["Unknown"], but writing the
    property [__proto__] of the accumulator reaches the setter of
    [Object.prototype], which drops the value: the record is in no
    category and the total stays 0. *)
Theorem invalid_date_inherited_severity_not_counted :
  let row := incident "" "__proto__" in
  incidentTime row = None
  ∧ namedSeverity row
  ∧ monthlyDataArray [row] [] = []
  ∧ injuriesData [row] = []
  ∧ totalOf (injuriesData [row]) = Num 0.
Proof.
  simpl.
  assert (incidentTime (incident "" "__proto__") = None) as Hdate.
  { unfold incidentTime, newDate.
    replace (incident "" "__proto__" !! "Incident Date") with (Some "")
      by (by vm_compute).
    apply Date_parse_empty. }
  split_and!; [done| | |by vm_compute..].
  - exists "__proto__". split_and!; by vm_compute.
  - unfold monthlyDataArray. rewrite monthlyAccidentsOf_eq. csimpl.
    by rewrite Hdate.
Qed.
End invalid_dates.

(** ** The pipeline *)

Section pipeline.
Context `{Host}.

Lemma loadData_fetched net st adasText adsText :
  fetchedTexts net = Some (adasText, adsText) →
  loadData net st =
    {| monthlyData := monthlyDataArray (Papa_parse adasText) (Papa_parse adsText);
       adasInjuries := injuriesData (Papa_parse adasText);
       adsInjuries := injuriesData (Papa_parse adsText);
       totalADAS := totalOf (injuriesData (Papa_parse adasText));
       totalADS := totalOf (injuriesData (Papa_parse adsText));
       isLoading := false;
       error := None |}.
Proof.
  unfold fetchedTexts, loadData, loadDataTry.
  destruct (adasFetch net) as [[ok1 text1]|]; [|done].
  destruct (adsFetch net) as [[ok2 text2]|]; [|done]. simpl.
  destruct ok1, ok2; try done. simpl.
  destruct text1 as [a|]; [|done]. destruct text2 as [b|]; [|done].
  by intros [= -> ->].
Qed.

(** C9. Two runs of the pipeline that fetch the same two texts end in the
    same state, whatever the state before each run: the same month buckets,
    the same categories and the same totals for both feeds. In particular a
    second run after the first changes nothing. *)
Theorem same_texts_same_results net1 net2 st1 st2 adasText adsText :
  fetchedTexts net1 = Some (adasText, adsText) →
  fetchedTexts net2 = Some (adasText, adsText) →
  loadData net1 st1 = loadData net2 st2
  ∧ monthlyData (loadData net1 st1) = monthlyData (loadData net2 st2)
  ∧ totalADAS (loadData net1 st1) = totalADAS (loadData net2 st2)
  ∧ totalADS (loadData net1 st1) = totalADS (loadData net2 st2)
  ∧ loadData net1 (loadData net1 st1) = loadData net1 st1.
Proof.
  intros H1 H2.
  rewrite !(loadData_fetched net1 _ _ _ H1), (loadData_fetched net2 _ _ _ H2).
  done.
Qed.

Lemma monthlyDataArray_no_valid_date adasData adsData :
  Forall (λ row, incidentTime row = None) (adasData ++ adsData) →
  monthlyDataArray adasData adsData = [].
Proof.
  intros Hall. unfold monthlyDataArray. rewrite monthlyAccidentsOf_eq.
  replace (omap incidentTime (adasData ++ adsData)) with (@nil Z); [done|].
  induction Hall as [|row rows Hrow _ IH]; csimpl; [done|]. by rewrite Hrow.
Qed.

Lemma injuriesData_all_excluded (data : list Row) :
  Forall excludedSeverity data → injuriesData data = [].
Proof.
  intros Hall. unfold injuriesData.
  assert (∀ acc, foldl severityReducer acc data = acc) as ->; [|done].
  induction Hall as [|row rows Hrow _ IH]; intros acc; simpl; [done|].
  by rewrite severityReducer_excluded, IH.
Qed.

(** C10. When both fetches succeed and the parsed feeds have no record, or
    none that passes a filter, the run ends in the ready state: loading is
    over, there is no error, the month buckets and both category lists are
    empty, both totals are 0, and the component renders the dashboard. *)
Theorem empty_feeds_reach_ready net st adasText adsText :
  fetchedTexts net = Some (adasText, adsText) →
  Forall passesNoFilter (Papa_parse adasText) →
  Forall passesNoFilter (Papa_parse adsText) →
  loadData net st =
    {| monthlyData := []; adasInjuries := []; adsInjuries := [];
       totalADAS := Num 0; totalADS := Num 0; isLoading := false; error := None |}
  ∧ render (loadData net st) = DashboardView [] [] [] (Num 0) (Num 0).
Proof.
  intros Hnet HA HB.
  rewrite (loadData_fetched net st _ _ Hnet).
  rewrite monthlyDataArray_no_valid_date, !injuriesData_all_excluded.
  - done.
  - eapply Forall_impl; [exact HB|]. by intros row [_ ?].
  - eapply Forall_impl; [exact HA|]. by intros row [_ ?].
  - apply Forall_app. split; (eapply Forall_impl; [eassumption|]); by intros row [? _].
Qed.

(** C4. When a fetch rejects or answers with a status outside 2xx, the
    run ends with loading over and the error set to a message, and with
    the month buckets, the categories and the totals that the state held
    before the run: nothing is computed from either feed. The message is
    that of the rejection, or ["Failed to fetch CSV files"] when both
    fetches settled; a message that is not empty makes the component render
    the error view. From the state the component starts in, the buckets and
    the categories are empty. *)
Theorem failed_fetch_gives_error_state net st :
  fetchFailed (adasFetch net) ∨ fetchFailed (adsFetch net) →
  ∃ message,
    loadData net st = setIsLoading false (setError (Some message) st)
    ∧ error (loadData net st) = Some message
    ∧ isLoading (loadData net st) = false
    ∧ monthlyData (loadData net st) = monthlyData st
    ∧ adasInjuries (loadData net st) = adasInjuries st
    ∧ adsInjuries (loadData net st) = adsInjuries st
    ∧ totalADAS (loadData net st) = totalADAS st
    ∧ totalADS (loadData net st) = totalADS st
    ∧ (message ≠ "" → render (loadData net st) = ErrorView message)
    ∧ ((∃ r1 r2, adasFetch net = Fulfilled r1 ∧ adsFetch net = Fulfilled r2) →
         message = "Failed to fetch CSV files"
         ∧ render (loadData net st) = ErrorView "Failed to fetch CSV files")
    ∧ (st = initialState →
         monthlyData (loadData net st) = []
         ∧ adasInjuries (loadData net st) = []
         ∧ adsInjuries (loadData net st) = []).
Proof.
  intros Hfail.
  assert (∃ message, loadDataTry net (setError None (setIsLoading true st))
                     = Rejected message
            ∧ ((∃ r1 r2, adasFetch net = Fulfilled r1 ∧ adsFetch net = Fulfilled r2) →
               message = "Failed to fetch CSV files")) as (message & Htry & Hmsg).
  { unfold loadDataTry, fetchFailed in *.
    destruct (adasFetch net) as [[ok1 text1]|m1], (adsFetch net) as [[ok2 text2]|m2];
      simpl in *.
    - exists "Failed to fetch CSV files". split; [|done].
      destruct Hfail as [->| ->]; [done|]. by destruct ok1.
    - exists m2. split; [done|]. by intros (? & ? & _ & ?).
    - exists m1. split; [done|]. by intros (? & ? & ? & _).
    - exists (if adsSettlesFirst net then m2 else m1). split; [done|].
      by intros (? & ? & ? & _). }
  exists message. unfold loadData. rewrite Htry.
  split_and!; try done.
  - unfold render. simpl. by destruct message.
  - intros Hboth. by rewrite (Hmsg Hboth).
  - by intros ->.
Qed.
End pipeline.

(** * Further properties of the component *)

(** ** The buckets, one by one *)

Section buckets.
Context `{Host}.
Implicit Types (rows adasData adsData : list Row) (row : Row).
Implicit Types (ts : list Z) (t : Z) (k : string) (b : MonthBucket).

Lemma countKey_pos ts t : t ∈ ts → 1 ≤ countKey (monthKey t) ts.
Proof.
  intros Ht. unfold countKey.
  assert (t ∈ filter (λ t', monthKey t' = monthKey t) ts) as Hin
    by (by apply list_elem_of_filter).
  destruct (filter _ ts); [by apply elem_of_nil in Hin|simpl; lia].
Qed.

(** The buckets are exactly the buckets of the months of the valid times. *)
Lemma elem_of_monthlyDataArray adasData adsData b :
  b ∈ monthlyDataArray adasData adsData
  ↔ ∃ t, t ∈ validTimes adasData adsData ∧ b = bucketOf (validTimes adasData adsData) t.
Proof.
  pose proof (monthlyAccidentsOf_inv adasData adsData) as Hinv.
  rewrite monthlyDataArray_Permutation. split.
  - intros ([k b'] & -> & Hin)%list_elem_of_fmap. simpl.
    apply (elem_of_ownGet _ _ _ (inv_NoDup _ _ Hinv)) in Hin.
    destruct (inv_present _ _ Hinv k b' Hin) as (Hk & Hc & (t & Ht & Hkt) & Hl).
    exists t. split; [done|]. destruct (Hl t Ht Hkt) as [Hd Ha].
    destruct b'; simpl in *. unfold bucketOf. congruence.
  - intros (t & Ht & ->).
    destruct (ownGet (monthlyAccidentsOf adasData adsData) (monthKey t)) as [b'|] eqn:E.
    + destruct (inv_present _ _ Hinv _ b' E) as (Hk & Hc & _ & Hl).
      destruct (Hl t Ht eq_refl) as [Hd Ha].
      apply ownGet_Some_elem_of in E.
      apply list_elem_of_fmap. exists (monthKey t, b'). split; [|done].
      destruct b'; simpl in *. unfold bucketOf. congruence.
    + apply (inv_absent _ _ Hinv) in E. pose proof (countKey_pos _ _ Ht). lia.
Qed.

Lemma countKey_rowsWithKey k rows :
  countKey k (omap incidentTime rows) = length (rowsWithKey k rows).
Proof.
  unfold countKey, rowsWithKey. induction rows as [|row rows IH]; [done|].
  rewrite (filter_cons _ row). csimpl.
  destruct (incidentTime row) as [t|] eqn:Et; csimpl.
  - rewrite filter_cons. destruct (decide (monthKey t = k)) as [Hk|Hk].
    + rewrite decide_True by (by rewrite Hk). simpl. by rewrite IH.
    + rewrite decide_False by (by intros [= ?]). done.
  - rewrite ?decide_False by done. done.
Qed.

(** X1. Every bucket counts the validly dated records of both feeds that
    fall in its month, and there is at least one; every validly dated
    record is counted in the one bucket that has the key of its month. *)
Theorem bucket_counts_the_records_of_its_month adasData adsData :
  (∀ b, b ∈ monthlyDataArray adasData adsData →
     count b = length (rowsWithKey (sortKey b) (adasData ++ adsData)) ∧ 1 ≤ count b)
  ∧ (∀ row t, row ∈ adasData ++ adsData → incidentTime row = Some t →
       ∃ b, filter (λ b, sortKey b = monthKey t) (monthlyDataArray adasData adsData) = [b]
          ∧ row ∈ rowsWithKey (sortKey b) (adasData ++ adsData)).
Proof.
  split.
  - intros b (t & Ht & ->)%elem_of_monthlyDataArray. simpl.
    split; [apply countKey_rowsWithKey|by apply countKey_pos].
  - intros row t Hrow Ht.
    assert (t ∈ validTimes adasData adsData) as Hin
      by (apply list_elem_of_omap; by exists row).
    exists (bucketOf (validTimes adasData adsData) t). split.
    + apply (filter_unique_key sortKey _ (bucketOf (validTimes adasData adsData) t));
        [apply monthlyDataArray_NoDup|].
      apply elem_of_monthlyDataArray. by exists t.
    + apply list_elem_of_filter. split; [|done]. by rewrite Ht.
Qed.
End buckets.

(** ** Labels *)

Lemma string_app_inj_prefix a1 a2 b1 b2 :
  String.length a1 = String.length a2 →
  a1 +:+ b1 = a2 +:+ b2 → a1 = a2 ∧ b1 = b2.
Proof.
  revert a2. induction a1 as [|c a1 IH]; intros [|d a2] Hlen Heq; try done.
  change (String c (a1 +:+ b1) = String d (a2 +:+ b2)) in Heq.
  injection Heq as -> Heq. injection Hlen as Hlen.
  destruct (IH a2 Hlen Heq) as [-> ->]. done.
Qed.

Lemma monthText_twoDigit m : m < 12 → twoDigitMonths !! m = Some (monthText m).
Proof. intros Hm. do 12 (destruct m as [|m]; [done|]). lia. Qed.

Lemma MONTHS_lookup m : m < 12 → ∃ monthName, MONTHS !! m = Some monthName
  ∧ String.length monthName = 3.
Proof. intros Hm. do 12 (destruct m as [|m]; [by eexists|]). lia. Qed.

Lemma MONTHS_inj m1 m2 monthName :
  MONTHS !! m1 = Some monthName → MONTHS !! m2 = Some monthName → m1 = m2.
Proof.
  intros H1 H2.
  assert (m1 < 12) by (by apply lookup_lt_Some in H1).
  assert (m2 < 12) by (by apply lookup_lt_Some in H2).
  do 12 (destruct m1 as [|m1];
    [do 12 (destruct m2 as [|m2]; [by simplify_eq/=|]); simpl in *; lia|]).
  simpl in *; lia.
Qed.

Section labels_format.
Context `{Host}.
Implicit Types (adasData adsData : list Row) (t : Z) (b : MonthBucket).

(** X2. Whatever the date, the key and the two labels name one year and one
    month: the month number is one of the two-digit texts 01 to 12, the
    month name is one of [MONTHS] (never [undefined]), and the key is
    year-month, the axis label month-year, the display label name and
    year. *)
Theorem labels_show_year_and_month t :
  ∃ monthName monthNumber,
    MONTHS !! getMonth t = Some monthName
    ∧ twoDigitMonths !! getMonth t = Some monthNumber
    ∧ monthKey t = pretty (getFullYear t) +:+ "-" +:+ monthNumber
    ∧ formatAxisDate t = monthNumber +:+ "-" +:+ pretty (getFullYear t)
    ∧ formatDate t = monthName +:+ " " +:+ pretty (getFullYear t).
Proof.
  pose proof (getMonth_range t) as Hm.
  destruct (MONTHS_lookup _ Hm) as (monthName & Hname & _).
  exists monthName, (monthText (getMonth t)).
  split_and!; [done|by apply monthText_twoDigit|done|done|].
  unfold formatDate. by rewrite Hname.
Qed.

Lemma formatAxisDate_inj t1 t2 :
  formatAxisDate t1 = formatAxisDate t2 → monthKey t1 = monthKey t2.
Proof.
  intros Heq. unfold formatAxisDate in Heq.
  apply string_app_inj_prefix in Heq as [Hm Hy].
  - apply String.app_inj, (inj pretty) in Hy.
    rewrite !monthKey_keyOfMonth, Hy. unfold keyOfMonth, monthText. by rewrite Hm.
  - pose proof (monthText_length _ (getMonth_range t1)).
    pose proof (monthText_length _ (getMonth_range t2)).
    unfold monthText in *. congruence.
Qed.

Lemma formatDate_inj t1 t2 :
  formatDate t1 = formatDate t2 → monthKey t1 = monthKey t2.
Proof.
  intros Heq. unfold formatDate in Heq.
  destruct (MONTHS_lookup _ (getMonth_range t1)) as (n1 & Hn1 & Hl1).
  destruct (MONTHS_lookup _ (getMonth_range t2)) as (n2 & Hn2 & Hl2).
  rewrite Hn1, Hn2 in Heq. simpl in Heq.
  apply string_app_inj_prefix in Heq as [-> Hy]; [|congruence].
  apply String.app_inj, (inj pretty) in Hy.
  rewrite !monthKey_keyOfMonth, Hy. f_equal. by eapply MONTHS_inj.
Qed.

Lemma bucketOf_key ts t1 t2 :
  monthKey t1 = monthKey t2 → bucketOf ts t1 = bucketOf ts t2.
Proof.
  intros Hk. destruct (monthKey_labels _ _ Hk) as [Hd Ha].
  unfold bucketOf. by rewrite Hk, Hd, Ha.
Qed.

Lemma monthlyDataArray_NoDup_buckets adasData adsData :
  NoDup (monthlyDataArray adasData adsData).
Proof. eapply NoDup_fmap_1, monthlyDataArray_NoDup. Qed.

Lemma bucket_labels_distinct_axis adasData adsData :
  NoDup (axisDate <$> monthlyDataArray adasData adsData).
Proof.
  apply NoDup_fmap_2_strong; [|apply monthlyDataArray_NoDup_buckets].
  intros b1 b2 (t1 & _ & ->)%elem_of_monthlyDataArray
    (t2 & _ & ->)%elem_of_monthlyDataArray; simpl; intros Heq.
  by apply bucketOf_key, formatAxisDate_inj.
Qed.

(** X3. No two buckets have the same axis label, and no two have the same
    display label. *)
Theorem bucket_labels_are_distinct adasData adsData :
  NoDup (axisDate <$> monthlyDataArray adasData adsData)
  ∧ NoDup (date <$> monthlyDataArray adasData adsData).
Proof.
  split; [apply bucket_labels_distinct_axis|].
  apply NoDup_fmap_2_strong; [|apply monthlyDataArray_NoDup_buckets].
  intros b1 b2 (t1 & _ & ->)%elem_of_monthlyDataArray
    (t2 & _ & ->)%elem_of_monthlyDataArray; simpl; intros Heq.
  by apply bucketOf_key, formatDate_inj.
Qed.

Lemma arrayFind_unique {A} (f : A → string) (l : list A) (x : A) :
  NoDup (f <$> l) → x ∈ l →
  arrayFind (λ item, String.eqb (f item) (f x)) l = Some x.
Proof.
  induction l as [|y l IH]; [by intros _ ?%elem_of_nil|].
  rewrite fmap_cons, NoDup_cons. intros [Hy Hnd] [->|Hin]%elem_of_cons; simpl.
  - by rewrite String.eqb_refl.
  - destruct (String.eqb_spec (f y) (f x)) as [Heq|_]; [|by apply IH].
    destruct Hy. rewrite Heq. by apply list_elem_of_fmap_2.
Qed.

Lemma arrayFind_none {A} (f : A → string) (l : list A) (k : string) :
  k ∉ f <$> l → arrayFind (λ item, String.eqb (f item) k) l = None.
Proof.
  induction l as [|y l IH]; [done|].
  rewrite fmap_cons, not_elem_of_cons. intros [Hy Hl]. simpl.
  destruct (String.eqb_spec (f y) k) as [Heq|_]; [by destruct Hy|by apply IH].
Qed.

(** X4. Over a bar of the chart the tooltip finds the bucket of that bar:
    for the axis label of any bucket and a payload that is not empty it
    shows the display label of that bucket and the first value of the
    payload. It is [null] when it is not active or the payload is missing
    or empty, and for a label that is the axis label of no bucket it throws. *)
Theorem tooltip_finds_the_bucket adasData adsData :
  let monthlyData := monthlyDataArray adasData adsData in
  (∀ b value0 values, b ∈ monthlyData →
     CustomTooltip monthlyData true (Some (value0 :: values)) (axisDate b)
     = TooltipBox (date b) value0)
  ∧ (∀ payload label, CustomTooltip monthlyData false payload label = TooltipNull)
  ∧ (∀ active label, CustomTooltip monthlyData active None label = TooltipNull
                     ∧ CustomTooltip monthlyData active (Some []) label = TooltipNull)
  ∧ (∀ value0 values label, label ∉ axisDate <$> monthlyData →
       CustomTooltip monthlyData true (Some (value0 :: values)) label
       = TooltipTypeError).
Proof.
  simpl. split_and!.
  - intros b value0 values Hb. unfold CustomTooltip.
    rewrite (arrayFind_unique axisDate); [done| |done].
    apply bucket_labels_distinct_axis.
  - done.
  - intros [] label; done.
  - intros value0 values label Hlabel. unfold CustomTooltip.
    by rewrite (arrayFind_none axisDate).
Qed.
End labels_format.

(** ** The order of the records and the order of the buckets *)

Section bucket_order.
Context `{Host}.
Implicit Types (adasData adsData : list Row) (ts : list Z) (t : Z) (b : MonthBucket).

Lemma countKey_Permutation k ts1 ts2 : ts1 ≡ₚ ts2 → countKey k ts1 = countKey k ts2.
Proof. intros Hperm. unfold countKey. by rewrite Hperm. Qed.

(** X6. The buckets do not depend on the order of the records, nor on the
    feed a record comes from: two pairs of feeds that hold the same records
    give the same sequence of buckets. *)
Theorem buckets_ignore_record_order adasData adsData adasData' adsData' :
  adasData ++ adsData ≡ₚ adasData' ++ adsData' →
  monthlyDataArray adasData adsData = monthlyDataArray adasData' adsData'.
Proof.
  intros Hperm.
  assert (validTimes adasData adsData ≡ₚ validTimes adasData' adsData') as Hts
    by (unfold validTimes; by rewrite Hperm).
  eapply StronglySorted_unique_strong;
    [|apply monthlyDataArray_sorted|apply monthlyDataArray_sorted|].
  - intros b1 b2 _ _ H12 H21. simpl in *.
    rewrite String.compare_antisym, H21 in H12. done.
  - apply NoDup_Permutation; [apply monthlyDataArray_NoDup_buckets..|].
    intros b. rewrite !elem_of_monthlyDataArray.
    split; intros (t & Ht & ->); exists t.
    + split; [by rewrite <-Hts|]. unfold bucketOf.
      by rewrite (countKey_Permutation _ _ _ Hts).
    + split; [by rewrite Hts|]. unfold bucketOf.
      by rewrite (countKey_Permutation _ _ _ Hts).
Qed.
End bucket_order.

(** The order of the code units on texts of the same length that are
    followed by other texts. *)
Lemma string_compare_app a1 a2 b1 b2 :
  String.length a1 = String.length a2 →
  String.compare (a1 +:+ b1) (a2 +:+ b2)
  = match String.compare a1 a2 with Eq => String.compare b1 b2 | c => c end.
Proof.
  revert a2. induction a1 as [|c a1 IH]; intros [|d a2] Hlen; try done.
  change (String.compare (String c (a1 +:+ b1)) (String d (a2 +:+ b2)) = 
          match String.compare (String c a1) (String d a2) with
          | Eq => String.compare b1 b2 | r => r end).
  simpl. destruct (Ascii.compare c d); [|done..].
  apply IH. by injection Hlen.
Qed.

Lemma yearStepOk_all : forallb yearStepOk (seqZ 1000 8999) = true.
Proof. vm_compute. reflexivity. Qed.

Lemma yearStepOk_range (y : Z) : (1000 ≤ y < 9999)%Z → yearStepOk y = true.
Proof.
  intros Hy. pose proof yearStepOk_all as Hall.
  rewrite forallb_forall in Hall. apply Hall, list_elem_of_In, elem_of_seqZ. lia.
Qed.

Lemma pretty_year_length (y : Z) :
  (1000 ≤ y ≤ 9999)%Z → String.length (pretty y) = 4.
Proof.
  intros Hy. destruct (decide (y = 9999%Z)) as [->|]; [done|].
  pose proof (yearStepOk_range y ltac:(lia)) as Hok.
  apply andb_true_iff in Hok as [Hlen _]. by apply Nat.eqb_eq in Hlen.
Qed.

Lemma pretty_year_lt (y1 y2 : Z) :
  (1000 ≤ y1)%Z → (y1 < y2)%Z → (y2 ≤ 9999)%Z →
  String.compare (pretty y1) (pretty y2) = Lt.
Proof.
  intros H1 Hlt H2.
  assert (∃ d : nat, y2 = (y1 + 1 + Z.of_nat d)%Z) as [d ->]
    by (exists (Z.to_nat (y2 - y1 - 1)); lia).
  clear Hlt. induction d as [|d IH].
  - rewrite Z.add_0_r.
    pose proof (yearStepOk_range y1 ltac:(lia)) as Hok.
    apply andb_true_iff in Hok as [_ Hok]. by destruct (String.compare _ _).
  - eapply string_compare_Lt_trans; [apply IH; lia|].
    pose proof (yearStepOk_range (y1 + 1 + Z.of_nat d) ltac:(lia)) as Hok.
    apply andb_true_iff in Hok as [_ Hok].
    replace (y1 + 1 + Z.of_nat (S d))%Z with (y1 + 1 + Z.of_nat d + 1)%Z by lia.
    clear IH. by destruct (String.compare _ _).
Qed.

Lemma monthText_lt m1 m2 :
  m1 < 12 → m2 < 12 →
  String.compare (monthText m1) (monthText m2) = Lt → m1 < m2.
Proof.
  intros H1 H2.
  do 12 (destruct m1 as [|m1];
    [do 12 (destruct m2 as [|m2]; [vm_compute; by (discriminate || lia)|]); lia|]).
  lia.
Qed.

(** On years of four digits the order of the keys is the order of the
    calendar. *)
Lemma keyOfMonth_lt (y1 y2 : Z) (m1 m2 : nat) :
  (1000 ≤ y1 ≤ 9999)%Z → (1000 ≤ y2 ≤ 9999)%Z → m1 < 12 → m2 < 12 →
  String.compare (keyOfMonth y1 m1) (keyOfMonth y2 m2) = Lt →
  (y1 < y2)%Z ∨ (y1 = y2 ∧ m1 < m2).
Proof.
  intros Hy1 Hy2 Hm1 Hm2. unfold keyOfMonth.
  rewrite string_compare_app by (by rewrite !pretty_year_length).
  destruct (Z.lt_trichotomy y1 y2) as [Hlt|[Heq|Hgt]].
  - intros _. by left.
  - rewrite Heq, string_compare_refl.
    change (String.compare ("-" +:+ monthText m1) ("-" +:+ monthText m2))
      with (String.compare (monthText m1) (monthText m2)).
    intros Hm%monthText_lt; [|done..]. by right.
  - rewrite String.compare_antisym, (pretty_year_lt y2 y1) by lia. done.
Qed.

Section chronology.
Context `{Host}.
Implicit Types (adasData adsData : list Row) (t : Z) (b : MonthBucket).

(** X5. When the years of all the validly dated records have four digits,
    the buckets come out in the order of the calendar: of two buckets, the
    earlier one in the sequence is of the earlier month. *)
Theorem buckets_in_calendar_order adasData adsData :
  Forall fourDigitYear (validTimes adasData adsData) →
  ∀ i j t1 t2, i < j →
    t1 ∈ validTimes adasData adsData → t2 ∈ validTimes adasData adsData →
    sortKey <$> monthlyDataArray adasData adsData !! i = Some (monthKey t1) →
    sortKey <$> monthlyDataArray adasData adsData !! j = Some (monthKey t2) →
    monthBefore t1 t2.
Proof.
  intros Hyears i j t1 t2 Hij Ht1 Ht2 Hi Hj.
  rewrite Forall_forall in Hyears.
  destruct (monthlyDataArray adasData adsData !! i) as [b1|] eqn:Hb1; [|done].
  destruct (monthlyDataArray adasData adsData !! j) as [b2|] eqn:Hb2; [|done].
  injection Hi as Hi. injection Hj as Hj.
  assert (String.compare (sortKey b1) (sortKey b2) = Lt) as Hlt.
  { pose proof (monthlyDataArray_sorted adasData adsData) as Hsorted.
    revert i j Hij Hb1 Hb2.
    induction Hsorted as [|x l Hl IH Hall]; intros i j Hij Hb1 Hb2; [done|].
    destruct j as [|j]; [lia|]. destruct i as [|i]; simpl in *.
    - injection Hb1 as ->. rewrite Forall_forall in Hall.
      by eapply Hall, list_elem_of_lookup_2.
    - apply (IH i j); [lia|done..]. }
  rewrite Hi, Hj, !monthKey_keyOfMonth in Hlt.
  apply keyOfMonth_lt in Hlt;
    first [done | apply getMonth_range | by apply Hyears].
Qed.
End chronology.

(** ** The categories, one by one *)

Section categories.
Implicit Types (data : list Row) (row : Row) (acc : Props Prim) (s : string).

Lemma severity_fold_NoDup data : NoDup (foldl severityReducer [] data).*1.
Proof.
  induction data as [|row data IH] using rev_ind; [apply NoDup_nil_2|].
  rewrite foldl_snoc. unfold severityReducer.
  destruct (severityCounts _); [|done].
  unfold setProp. destruct (String.eqb _ _); [done|]. by apply ownSet_NoDup.
Qed.

Lemma rowsWithSeverity_snoc s data row :
  length (rowsWithSeverity s (data ++ [row]))
  = length (rowsWithSeverity s data) + (if decide (severityOf row = Some s) then 1 else 0).
Proof.
  unfold rowsWithSeverity. rewrite filter_app, length_app, filter_cons, filter_nil.
  by case_decide.
Qed.

(** In a feed whose severities are not inherited names, the accumulator
    holds under each counted severity the number of the records that have it. *)
Lemma severity_fold_counts data s :
  Forall plainSeverity data → s ≠ "" → s ≠ "Unknown" →
  ownGet (foldl severityReducer [] data) s
  = match length (rowsWithSeverity s data) with
    | 0 => None
    | S n => Some (Num (S n))
    end.
Proof.
  intros Hplain H1 H2. induction data as [|row data IH] using rev_ind; [done|].
  apply Forall_app in Hplain as [Hdata Hrow].
  apply (proj1 (Forall_singleton _ _)) in Hrow.
  specialize (IH Hdata). destruct (severity_fold_plain data Hdata) as [Hpos _].
  rewrite foldl_snoc, rowsWithSeverity_snoc.
  destruct (decide (namedSeverity row)) as [(s' & Hs' & H1' & H2')|Hex].
  - rewrite (severityReducer_named _ _ s') by done.
    rewrite increment_plain, setProp_plain by auto.
    destruct (decide (s' = s)) as [->|Hne].
    + rewrite ownGet_ownSet_eq, decide_True, IH by done.
      destruct (length (rowsWithSeverity s data)); simpl; do 2 f_equal; lia.
    + rewrite ownGet_ownSet_ne, decide_False, IH, Nat.add_0_r by congruence. done.
  - assert (excludedSeverity row) as Hrow'.
    { apply severityCounts_false.
      destruct (severityCounts (severityOf row)) eqn:E; [|done].
      by apply severityCounts_true in E. }
    rewrite severityReducer_excluded, IH, decide_False, Nat.add_0_r; [done| |done].
    destruct Hrow' as [Hs|[Hs|Hs]]; rewrite Hs; congruence.
Qed.

Lemma elem_of_injuriesData data c :
  c ∈ injuriesData data
  ↔ ownGet (foldl severityReducer [] data) (name c) = Some (value c).
Proof.
  unfold injuriesData. rewrite list_elem_of_fmap. split.
  - intros ([k p] & -> & Hin). simpl. rewrite ownEntries_Permutation in Hin.
    by apply elem_of_ownGet; [apply severity_fold_NoDup|].
  - intros Hc%ownGet_Some_elem_of. exists (name c, value c).
    split; [by destruct c|]. by rewrite ownEntries_Permutation.
Qed.

Lemma injuriesData_name data :
  name <$> injuriesData data = (ownEntries (foldl severityReducer [] data)).*1.
Proof. unfold injuriesData. by rewrite <-list_fmap_compose. Qed.

(** X7. No two categories of a feed have the same name. In a feed whose
    severities are not names inherited from [Object.prototype], the value of
    each category is the number of the records with that severity, which is
    at least one, and every record with a present, non-empty severity other
    than Unknown has its category. *)
Theorem categories_count_their_records data :
  NoDup (name <$> injuriesData data)
  ∧ (Forall plainSeverity data →
     (∀ c, c ∈ injuriesData data →
        value c = Num (length (rowsWithSeverity (name c) data))
        ∧ 1 ≤ length (rowsWithSeverity (name c) data))
     ∧ (∀ row s, row ∈ data → severityOf row = Some s → s ≠ "" → s ≠ "Unknown" →
          {| name := s; value := Num (length (rowsWithSeverity s data)) |}
          ∈ injuriesData data)).
Proof.
  split.
  - rewrite injuriesData_name.
    rewrite ownEntries_Permutation. apply severity_fold_NoDup.
  - intros Hplain. split.
    + intros c Hc. pose proof (injuriesData_names _ _ Hc) as [H1 H2]%severity_keys.
      apply elem_of_injuriesData in Hc.
      rewrite severity_fold_counts in Hc by done.
      destruct (length (rowsWithSeverity (name c) data)); [done|].
      injection Hc as <-. split; [done|lia].
    + intros row s Hrow Hs H1 H2. apply elem_of_injuriesData. simpl.
      rewrite severity_fold_counts by done.
      assert (row ∈ rowsWithSeverity s data) as Hin
        by (by apply list_elem_of_filter).
      destruct (rowsWithSeverity s data); [by apply elem_of_nil in Hin|done].
Qed.

Lemma firstSeen_snoc (l : list string) s :
  firstSeen (l ++ [s]) = if decide (s ∈ l) then firstSeen l else firstSeen l ++ [s].
Proof.
  unfold firstSeen. rewrite reverse_snoc. simpl.
  destruct (decide_rel elem_of s (reverse l)) as [Hin|Hin].
  - rewrite decide_True; [done|]. by apply elem_of_reverse.
  - rewrite decide_False, reverse_cons; [done|]. by rewrite <-elem_of_reverse.
Qed.

Lemma elem_of_firstSeen (l : list string) s : s ∈ firstSeen l ↔ s ∈ l.
Proof.
  unfold firstSeen. by rewrite elem_of_reverse, elem_of_remove_dups, elem_of_reverse.
Qed.

Lemma countedSeverities_snoc data row :
  countedSeverities (data ++ [row])
  = countedSeverities data
    ++ (if decide (namedSeverity row) then option_list (severityOf row) else []).
Proof.
  unfold countedSeverities. rewrite omap_app. f_equal. csimpl.
  destruct (decide (namedSeverity row)); [|done]. by destruct (severityOf row).
Qed.

Lemma ownEntries_no_index {V} (o : Props V) :
  Forall (λ k, isArrayIndex k = false) o.*1 → ownEntries o = o.
Proof.
  intros Hall. unfold ownEntries, Props in *.
  assert (filter (λ kv : string * V, isArrayIndex kv.1 = true) o = []) as ->.
  { induction o as [|[k v] o IH]; [done|]. rewrite fmap_cons in Hall.
    apply Forall_cons in Hall as [Hk Hall]. simpl in Hk.
    rewrite filter_cons. rewrite decide_False; [auto|]. simpl. congruence. }
  change (filter (λ kv : string * V, isArrayIndex kv.1 = false) o = o).
  induction o as [|[k v] o IH]; [done|]. rewrite fmap_cons in Hall.
  apply Forall_cons in Hall as [Hk Hall]. simpl in Hk.
  rewrite filter_cons. rewrite decide_True by done. f_equal. auto.
Qed.

(** X8. When no counted severity is [__proto__] or an array index, the
    categories are in the order in which their severities first occur in
    the feed. *)
Theorem categories_in_first_seen_order data :
  Forall orderedName (countedSeverities data) →
  name <$> injuriesData data = firstSeen (countedSeverities data).
Proof.
  intros Hall.
  assert ((foldl severityReducer [] data).*1 = firstSeen (countedSeverities data))
    as Hkeys.
  { induction data as [|row data IH] using rev_ind; [done|].
    rewrite countedSeverities_snoc in Hall |- *.
    apply Forall_app in Hall as [Hdata Hrow]. specialize (IH Hdata).
    rewrite foldl_snoc.
    destruct (decide (namedSeverity row)) as [(s & Hs & H1 & H2)|Hex].
    - rewrite Hs in Hrow |- *. simpl in *.
      apply (proj1 (Forall_singleton _ _)) in Hrow. destruct Hrow as [Hproto _].
      rewrite (severityReducer_named _ _ s) by done.
      unfold setProp. apply String.eqb_neq in Hproto as ->.
      rewrite ownSet_keys, firstSeen_snoc.
      destruct (ownGet _ s) eqn:E.
      + rewrite decide_True; [done|].
        apply elem_of_firstSeen. rewrite <-IH.
        destruct (decide (s ∈ (foldl severityReducer [] data).*1)) as [|Hn];
          [done|]. apply ownGet_None in Hn. congruence.
      + rewrite decide_False, IH; [done|].
        apply ownGet_None in E. by rewrite <-elem_of_firstSeen, <-IH.
    - rewrite app_nil_r. rewrite severityReducer_excluded; [done|].
      apply severityCounts_false.
      destruct (severityCounts (severityOf row)) eqn:E; [|done].
      by apply severityCounts_true in E. }
  rewrite injuriesData_name.
  rewrite (ownEntries_no_index (foldl severityReducer [] data)); [exact Hkeys|].
  rewrite Hkeys. rewrite Forall_forall in Hall |- *.
  intros s Hs. apply (proj1 (elem_of_firstSeen _ _)) in Hs.
  by destruct (Hall s Hs).
Qed.
End categories.

(** ** The cells of the pie charts *)

(** X9. Every cell of a pie chart has a fill, one of the six [COLORS],
    whatever the number of categories, and the fills repeat every six cells. *)
Theorem pie_cells_always_have_a_fill (items : list CategoryCount) :
  length (pieCells items) = length items
  ∧ (∀ index, index < length items →
       ∃ fill, pieCells items !! index = Some (Some fill) ∧ fill ∈ COLORS)
  ∧ (∀ index, cellFill (index + length COLORS) = cellFill index).
Proof.
  unfold pieCells. split_and!.
  - apply length_imap.
  - intros index Hindex. rewrite list_lookup_imap.
    destruct (lookup_lt_is_Some_2 items index Hindex) as [c ->]. simpl.
    unfold cellFill.
    destruct (lookup_lt_is_Some_2 COLORS (index mod length COLORS)) as [fill Hfill].
    { apply Nat.mod_upper_bound. done. }
    exists fill. split; [by rewrite Hfill|]. by eapply list_elem_of_lookup_2.
  - intros index. unfold cellFill. f_equal.
    rewrite <-(Nat.mul_1_l (length COLORS)) at 1. by rewrite Nat.Div0.mod_add.
Qed.

(** ** The end of a run *)

Section run_end.
Context `{Host}.



(** X11. When both fetches are answered [ok] and a body cannot be read, the
    run ends with the error set to the message of that failure (of the
    first feed's body when both fail, as it is awaited first), with loading
    over and with the data that the state held before. *)
Theorem unreadable_body_gives_error_state net st message :
  bodyReadFailure net = Some message →
  loadData net st = setIsLoading false (setError (Some message) st)
  ∧ error (loadData net st) = Some message
  ∧ monthlyData (loadData net st) = monthlyData st
  ∧ adasInjuries (loadData net st) = adasInjuries st
  ∧ adsInjuries (loadData net st) = adsInjuries st.
Proof.
  intros Hfail.
  assert (loadData net st = setIsLoading false (setError (Some message) st)) as ->.
  { revert Hfail. unfold bodyReadFailure, loadData, loadDataTry.
    destruct (adasFetch net) as [[ok1 text1]|], (adsFetch net) as [[ok2 text2]|];
      simpl; try done.
    destruct ok1, ok2; simpl; try done.
    destruct text1 as [a|m1]; simpl; [|by intros [= ->]].
    destruct text2 as [b|m2]; simpl; [done|by intros [= ->]]. }
  done.
Qed.
End run_end.


(** ** What each aggregation reads *)

Section reads.
Context `{Host}.
Implicit Types (data adasData adsData : list Row).

(** X12. In a feed whose severities are not names inherited from
    [Object.prototype], the total is a number: the number of the records
    with a present, non-empty severity other than Unknown, which is also the
    sum of the values of the categories. The total of two such feeds joined
    is the sum of their totals. *)
Theorem total_of_plain_feed data data' :
  Forall plainSeverity data → Forall plainSeverity data' →
  totalOf (injuriesData data) = Num (length (filter namedSeverity data))
  ∧ totalOf (injuriesData data)
    = Num (sum_list ((λ c, numberOf (value c)) <$> injuriesData data))
  ∧ totalOf (injuriesData (data ++ data'))
    = Num (numberOf (totalOf (injuriesData data))
           + numberOf (totalOf (injuriesData data'))).
Proof.
  intros Hdata Hdata'.
  destruct (plain_feed_total data Hdata) as (_ & Hsum & Htotal).
  destruct (plain_feed_total data' Hdata') as (_ & _ & Htotal').
  destruct (plain_feed_total (data ++ data')) as (_ & _ & Hboth);
    [by apply Forall_app|].
  split_and!; [done|done|].
  rewrite Hboth, Htotal, Htotal'. simpl. by rewrite filter_app, length_app.
Qed.

(** X13. The categories of a feed depend on the severity fields of its
    records and on nothing else: two feeds whose records have, one by one,
    the same severity give the same categories and the same total. *)
Theorem categories_read_severity_only data data' :
  Forall2 (λ row row', severityOf row = severityOf row') data data' →
  injuriesData data = injuriesData data'
  ∧ totalOf (injuriesData data) = totalOf (injuriesData data').
Proof.
  intros Hsame.
  assert (∀ acc, foldl severityReducer acc data = foldl severityReducer acc data')
    as Hfold.
  { induction Hsame as [|row row' data data' Hrow _ IH]; intros acc; simpl; [done|].
    by rewrite (severityReducer_reads_severity _ row row'), IH. }
  unfold injuriesData. by rewrite Hfold.
Qed.

(** X14. The buckets depend on the incident dates of the records and on
    nothing else: feeds whose records have, one by one, the same incident
    date field give the same buckets. *)
Theorem buckets_read_incident_date_only adasData adasData' adsData adsData' :
  Forall2 (λ row row', row !! "Incident Date" = row' !! "Incident Date")
    adasData adasData' →
  Forall2 (λ row row', row !! "Incident Date" = row' !! "Incident Date")
    adsData adsData' →
  monthlyDataArray adasData adsData = monthlyDataArray adasData' adsData'.
Proof.
  intros HA HB.
  assert (omap incidentTime (adasData ++ adsData)
          = omap incidentTime (adasData' ++ adsData')) as Hts.
  { pose proof (Forall2_app HA HB) as Hall.
    induction Hall as [|row row' rows rows' Hrow _ IH]; [done|].
    assert (incidentTime row = incidentTime row') as Heq
      by (unfold incidentTime; by rewrite Hrow).
    csimpl. by rewrite Heq, IH. }
  unfold monthlyDataArray. by rewrite !monthlyAccidentsOf_eq, Hts.
Qed.
End reads.

(** ** The pipeline on concrete feeds *)

Import SampleHost Samples.

(** Closes a goal between closed terms by evaluating both sides. *)
Ltac by_evaluation := vm_compute; reflexivity.

(** The scenario of the three rows: two buckets, one category, total 2. *)
Example three_rows_scenario :
  @loadData utcHost
    {| adasFetch := okResponse adasText; adsFetch := okResponse emptyText;
       adsSettlesFirst := false |} initialState
  = {| monthlyData :=
         [ {| date := "Jan 2023"; axisDate := "01-2023"; count := 2; sortKey := "2023-01" |};
           {| date := "Feb 2023"; axisDate := "02-2023"; count := 1; sortKey := "2023-02" |} ];
       adasInjuries := [ {| name := "Minor"; value := Num 2 |} ];
       adsInjuries := [];
       totalADAS := Num 2; totalADS := Num 0;
       isLoading := false; error := None |}.
Proof. by_evaluation. Qed.

Example may_buckets : @monthlyDataArray utcHost mayAdas mayAds = [may2021; june2021].
Proof. by_evaluation. Qed.

(** C8, as the specification has it, fails. Both records are of May 2021.
    There is one bucket, and [formatDate] has been called twice: once for the
    first record, when the bucket is created, and once more for the second
    record, when the count goes from 1 to 2. *)
Lemma labels_recomputed_on_increment :
  let rows := [incident "2021-05-03" "Minor"; incident "2021-05-20" "Serious"] in
  (@forEachT utcHost rows []).1 = [("2021-05", may2021)]
  ∧ formatDateCalls (@forEachT utcHost rows []).2 = [1620000000000; 1621468800000]%Z
  ∧ @firstOfMonth utcHost [] (omap (@incidentTime utcHost) rows) = [1620000000000]%Z
  ∧ ¬ @labelsComputedOnce utcHost rows.
Proof. vm_compute. repeat split; discriminate. Qed.

(** The buckets of the May and June feeds: the key of May is below the key
    of June. *)
Lemma monthly_buckets_strictly_ascending_witness :
  sortKey <$> @monthlyDataArray utcHost mayAdas mayAds = ["2021-05"; "2021-06"]
  ∧ String.compare "2021-05" "2021-06" = Lt.
Proof.
  split; [by_evaluation|].
  apply (proj1 (@monthly_buckets_strictly_ascending utcHost mayAdas mayAds)
           0 may2021 june2021); by_evaluation.
Defined.

(** Both sample feeds have a record of May 2021 (month 4 from 0): one
    bucket, which counts the records of both. *)
Lemma shared_month_single_bucket_witness :
  (∃ b, filter (λ b, sortKey b = keyOfMonth 2021 4)
          (@monthlyDataArray utcHost mayAdas mayAds) = [b]
      ∧ sortKey b = keyOfMonth 2021 4
      ∧ count b = length (@rowsInMonth utcHost (2021%Z, 4) mayAdas)
                  + length (@rowsInMonth utcHost (2021%Z, 4) mayAds))
  ∧ NoDup (sortKey <$> @monthlyDataArray utcHost mayAdas mayAds).
Proof.
  apply (@shared_month_single_bucket utcHost mayAdas mayAds 2021 4);
    intros Hnone; apply (f_equal length) in Hnone; vm_compute in Hnone;
    discriminate.
Defined.

(** The labels of the May bucket are those of its first record. *)
Lemma labels_computed_for_every_record_witness :
  date may2021 = @formatDate utcHost 1620000000000
  ∧ axisDate may2021 = @formatAxisDate utcHost 1620000000000.
Proof.
  apply (proj2 (@labels_computed_for_every_record utcHost mayAdas mayAds)
           may2021 (incident "2021-05-03" "Minor")).
  - rewrite may_buckets. left.
  - left.
  - by_evaluation.
  - by_evaluation.
Defined.

(** A record with severity ["Unknown"] between two counted records. *)
Lemma excluded_severity_never_counted_witness :
  injuriesData ([incident "2021-05-03" "Minor"]
                ++ incident "2021-05-04" "Unknown" :: [incident "2021-05-05" "Minor"])
  = injuriesData ([incident "2021-05-03" "Minor"] ++ [incident "2021-05-05" "Minor"])
  ∧ totalOf (injuriesData ([incident "2021-05-03" "Minor"]
                ++ incident "2021-05-04" "Unknown" :: [incident "2021-05-05" "Minor"]))
    = totalOf (injuriesData ([incident "2021-05-03" "Minor"]
                ++ [incident "2021-05-05" "Minor"]))
  ∧ ∀ data c, c ∈ injuriesData data → name c ≠ "Unknown" ∧ name c ≠ "".
Proof.
  apply excluded_severity_never_counted. right; right. by_evaluation.
Defined.

(** The same two texts, fetched in either order, from the initial state or
    after a failed run. *)
Lemma same_texts_same_results_witness :
  @loadData utcHost bothFetched initialState
  = @loadData utcHost bothFetchedAdsFirst (@loadData utcHost adasNotFound initialState)
  ∧ monthlyData (@loadData utcHost bothFetched initialState)
    = monthlyData (@loadData utcHost bothFetchedAdsFirst
                     (@loadData utcHost adasNotFound initialState))
  ∧ totalADAS (@loadData utcHost bothFetched initialState)
    = totalADAS (@loadData utcHost bothFetchedAdsFirst
                   (@loadData utcHost adasNotFound initialState))
  ∧ totalADS (@loadData utcHost bothFetched initialState)
    = totalADS (@loadData utcHost bothFetchedAdsFirst
                  (@loadData utcHost adasNotFound initialState))
  ∧ @loadData utcHost bothFetched (@loadData utcHost bothFetched initialState)
    = @loadData utcHost bothFetched initialState.
Proof.
  apply (@same_texts_same_results utcHost bothFetched bothFetchedAdsFirst
           initialState (@loadData utcHost adasNotFound initialState) adasText adsText);
    reflexivity.
Defined.

(** A feed without records and a feed whose only record passes no filter. *)
Lemma empty_feeds_reach_ready_witness :
  @loadData utcHost nothingToShow initialState
  = {| monthlyData := []; adasInjuries := []; adsInjuries := [];
       totalADAS := Num 0; totalADS := Num 0; isLoading := false; error := None |}
  ∧ render (@loadData utcHost nothingToShow initialState)
    = DashboardView [] [] [] (Num 0) (Num 0).
Proof.
  apply (@empty_feeds_reach_ready utcHost nothingToShow initialState
           emptyText unusableText).
  - reflexivity.
  - replace (@Papa_parse utcHost emptyText) with (@nil Row)
      by (by_evaluation).
    constructor.
  - replace (@Papa_parse utcHost unusableText) with [incident "soon" "Unknown"]
      by (by_evaluation).
    constructor; [|constructor]. split; [by_evaluation|].
    right; right. by_evaluation.
Defined.

(** The first feed answers 404: the run from the initial state ends in the
    error state, with nothing computed from the second feed. *)
Lemma failed_fetch_gives_error_state_witness :
  @loadData utcHost adasNotFound initialState
  = {| monthlyData := []; adasInjuries := []; adsInjuries := [];
       totalADAS := Num 0; totalADS := Num 0; isLoading := false;
       error := Some "Failed to fetch CSV files" |}
  ∧ render (@loadData utcHost adasNotFound initialState)
    = ErrorView "Failed to fetch CSV files".
Proof.
  destruct (@failed_fetch_gives_error_state utcHost adasNotFound initialState
              (or_introl eq_refl))
    as (message & Hstate & _ & _ & _ & _ & _ & _ & _ & _ & Hboth & _).
  destruct Hboth as [-> Hrender]; [by eexists _, _|].
  split; [exact Hstate|exact Hrender].
Defined.

(** ** The further properties on concrete feeds *)

(** A key with a year of three digits is after the key of a later year of
    four digits: the order of the keys is the order of the calendar only
    among years with the same number of digits. *)
Example short_year_key_out_of_order :
  String.compare (keyOfMonth 999 11) (keyOfMonth 1000 0) = Gt.
Proof. by_evaluation. Qed.

(** Shows that the rows of a concrete feed have plain severities. *)
Ltac plain_rows :=
  repeat constructor; intros s Hs; vm_compute in Hs; injection Hs as <-;
  apply (bool_decide_unpack _); vm_compute; exact I.

(** The May bucket counts the two records of May 2021. *)
Lemma bucket_counts_the_records_of_its_month_witness :
  count may2021 = length (@rowsWithKey utcHost (sortKey may2021) (mayAdas ++ mayAds))
  ∧ 1 ≤ count may2021.
Proof.
  apply (proj1 (@bucket_counts_the_records_of_its_month utcHost mayAdas mayAds)).
  rewrite may_buckets. left.
Defined.

(** Over the bar of May 2021 the tooltip shows the label of May 2021. *)
Lemma tooltip_finds_the_bucket_witness :
  CustomTooltip (@monthlyDataArray utcHost mayAdas mayAds) true (Some [2]) "05-2021"
  = TooltipBox "May 2021" 2.
Proof.
  apply (proj1 (@tooltip_finds_the_bucket utcHost mayAdas mayAds) may2021 2 []).
  rewrite may_buckets. left.
Defined.

(** May 2021 is the first bucket and June 2021 the second. *)
Lemma buckets_in_calendar_order_witness :
  @monthBefore utcHost 1620000000000 1622505600000.
Proof.
  assert (@validTimes utcHost mayAdas mayAds
          = [1620000000000; 1622505600000; 1621468800000]%Z) as Htimes
    by by_evaluation.
  apply (@buckets_in_calendar_order utcHost mayAdas mayAds) with (i := 0) (j := 1).
  - rewrite Htimes. repeat constructor; by vm_compute.
  - lia.
  - rewrite Htimes. left.
  - rewrite Htimes. right. left.
  - by_evaluation.
  - by_evaluation.
Defined.

(** The two sample feeds, swapped. *)
Lemma buckets_ignore_record_order_witness :
  @monthlyDataArray utcHost mayAdas mayAds = @monthlyDataArray utcHost mayAds mayAdas.
Proof.
  apply (@buckets_ignore_record_order utcHost). apply Permutation_app_comm.
Defined.

(** The category Minor of the sample feed counts its two records. *)
Lemma categories_count_their_records_witness :
  {| name := "Minor"; value := Num (length (rowsWithSeverity "Minor" severityFeed)) |}
  ∈ injuriesData severityFeed.
Proof.
  apply (proj2 (proj2 (categories_count_their_records severityFeed)
                  ltac:(unfold severityFeed; plain_rows))
           (incident "2021-05-03" "Minor")).
  - left.
  - by_evaluation.
  - discriminate.
  - discriminate.
Defined.

(** Minor occurs before Serious in the sample feed. *)
Lemma categories_in_first_seen_order_witness :
  name <$> injuriesData severityFeed = firstSeen (countedSeverities severityFeed).
Proof.
  apply categories_in_first_seen_order.
  replace (countedSeverities severityFeed) with ["Minor"; "Serious"; "Minor"]
    by by_evaluation.
  repeat constructor; (discriminate || by_evaluation).
Defined.

(** The second cell of a pie with two categories. *)
Lemma pie_cells_always_have_a_fill_witness :
  ∃ fill, pieCells (injuriesData severityFeed) !! 1 = Some (Some fill) ∧ fill ∈ COLORS.
Proof.
  apply (proj1 (proj2 (pie_cells_always_have_a_fill (injuriesData severityFeed)))).
  vm_compute. lia.
Defined.

(** The body of the second response cannot be read. *)
Lemma unreadable_body_gives_error_state_witness :
  @loadData utcHost unreadableBody initialState
  = setIsLoading false (setError (Some "body stream already read") initialState)
  ∧ error (@loadData utcHost unreadableBody initialState)
    = Some "body stream already read"
  ∧ monthlyData (@loadData utcHost unreadableBody initialState) = monthlyData initialState
  ∧ adasInjuries (@loadData utcHost unreadableBody initialState) = adasInjuries initialState
  ∧ adsInjuries (@loadData utcHost unreadableBody initialState) = adsInjuries initialState.
Proof.
  apply (@unreadable_body_gives_error_state utcHost unreadableBody initialState).
  reflexivity.
Defined.

(** The sample feed and the same feed with other dates. *)
Lemma total_of_plain_feed_witness :
  totalOf (injuriesData severityFeed) = Num (length (filter namedSeverity severityFeed))
  ∧ totalOf (injuriesData severityFeed)
    = Num (sum_list ((λ c, numberOf (value c)) <$> injuriesData severityFeed))
  ∧ totalOf (injuriesData (severityFeed ++ severityFeedRedated))
    = Num (numberOf (totalOf (injuriesData severityFeed))
           + numberOf (totalOf (injuriesData severityFeedRedated))).
Proof.
  apply total_of_plain_feed.
  - unfold severityFeed. plain_rows.
  - unfold severityFeedRedated. plain_rows.
Defined.

(** Two feeds with the same severities and other dates. *)
Lemma categories_read_severity_only_witness :
  injuriesData severityFeed = injuriesData severityFeedRedated
  ∧ totalOf (injuriesData severityFeed) = totalOf (injuriesData severityFeedRedated).
Proof.
  apply categories_read_severity_only.
  unfold severityFeed, severityFeedRedated. repeat constructor; by_evaluation.
Defined.

(** Two feeds with the same dates and other severities. *)
Lemma buckets_read_incident_date_only_witness :
  @monthlyDataArray utcHost mayAdas mayAds
  = @monthlyDataArray utcHost mayAdasRelabelled mayAds.
Proof.
  apply (@buckets_read_incident_date_only utcHost).
  - unfold mayAdas, mayAdasRelabelled. repeat constructor; by_evaluation.
  - unfold mayAds. repeat constructor.
Defined.
